(** * markdown-to-slides: the conversion server [server.js]

    A shallow embedding of the three routes of [server.js] and of the
    Markdown-to-slide-requests translation inside [POST /convert], with the
    properties of its specification.

    - JavaScript strings are sequences of UTF-16 code units ([list N]).
    - Numbers that the program only counts with ([slideCount], array
      indices) are [N] / [nat]; [Date.now()] is a [Z].  Both stay far
      below 2^53 and 10^21, where a JavaScript number is an exact integer
      and prints as its decimal digits.
    - [markdown-it], the OAuth2 client and the Slides API are external
      collaborators: they are variables of the section that holds the
      routes, and every call to the network is recorded in a trace. *)

From Stdlib Require Import List NArith ZArith Lia Bool String Ascii.
From Stdlib Require DecimalN.
Import ListNotations.

(* ================================================================== *)
(** * JavaScript strings *)
(* ================================================================== *)

Module JS.

(** A string value: its UTF-16 code units. *)
Definition str := list N.

(** An ASCII literal of the source as a [str]. *)
Fixpoint lit (s : string) : str :=
  match s with
  | EmptyString => []
  | String c s' => N_of_ascii c :: lit s'
  end.

Definition eqb (a b : str) : bool :=
  if list_eq_dec N.eq_dec a b then true else false.

Lemma eqb_eq (a b : str) : eqb a b = true <-> a = b.
Proof.
  unfold eqb. destruct (list_eq_dec N.eq_dec a b); split; congruence.
Qed.

Lemma eqb_refl (a : str) : eqb a a = true.
Proof. now apply eqb_eq. Qed.

(** [ToBoolean] on a string: only the empty string is falsy. *)
Definition truthy (s : str) : bool :=
  match s with [] => false | _ :: _ => true end.

(** ** [String.prototype.trim]

    The code units that [trim] strips: ECMAScript's WhiteSpace and
    LineTerminator productions. *)
Definition isWhiteSpace (c : N) : bool :=
  ((c =? 0x09) || (c =? 0x0A) || (c =? 0x0B) || (c =? 0x0C) || (c =? 0x0D)
   || (c =? 0x20) || (c =? 0xA0) || (c =? 0x1680)
   || ((0x2000 <=? c) && (c <=? 0x200A))
   || (c =? 0x2028) || (c =? 0x2029) || (c =? 0x202F) || (c =? 0x205F)
   || (c =? 0x3000) || (c =? 0xFEFF))%N.

Fixpoint dropWhile (p : N -> bool) (s : str) : str :=
  match s with
  | [] => []
  | c :: s' => if p c then dropWhile p s' else s
  end.

Definition trimStart (s : str) : str := dropWhile isWhiteSpace s.
Definition trimEnd (s : str) : str := rev (dropWhile isWhiteSpace (rev s)).
Definition trim (s : str) : str := trimEnd (trimStart s).

(** ** [String.prototype.split] with a string separator *)

(** [startsWith sep s]: [sep] occurs in [s] at position 0. *)
Fixpoint startsWith (sep s : str) : bool :=
  match sep, s with
  | [], _ => true
  | _ :: _, [] => false
  | a :: sep', b :: s' => (a =? b)%N && startsWith sep' s'
  end.

(** The scan of [split] for a non-empty separator: position [q] walks the
    string; at a match the piece collected since the last match is
    emitted and the scan resumes after the separator ([skip] counts the
    code units of the separator still to pass over); the piece that is
    left at the end is emitted as well, so the empty string gives one
    empty piece.  [cur] is the current piece, reversed. *)
Fixpoint splitFrom (sep : str) (skip : nat) (cur : str) (s : str)
  : list str :=
  match s with
  | [] => [rev cur]
  | c :: s' =>
      match skip with
      | S k => splitFrom sep k cur s'
      | O =>
          if startsWith sep s
          then rev cur :: splitFrom sep (List.length sep - 1) [] s'
          else splitFrom sep 0 (c :: cur) s'
      end
  end.

(** For the empty separator [split] gives one piece per code unit. *)
Definition split (sep s : str) : list str :=
  match sep with
  | [] => map (fun c => [c]) s
  | _ :: _ => splitFrom sep 0 [] s
  end.

(** [Array.prototype.join]. *)
Fixpoint join (sep : str) (l : list str) : str :=
  match l with
  | [] => []
  | [x] => x
  | x :: l' => x ++ sep ++ join sep l'
  end.

(** ** Number to string *)

Definition digitCode (d : N) : N := (48 + d)%N.

Fixpoint ofUint (d : Decimal.uint) : str :=
  match d with
  | Decimal.Nil => []
  | Decimal.D0 d => digitCode 0 :: ofUint d
  | Decimal.D1 d => digitCode 1 :: ofUint d
  | Decimal.D2 d => digitCode 2 :: ofUint d
  | Decimal.D3 d => digitCode 3 :: ofUint d
  | Decimal.D4 d => digitCode 4 :: ofUint d
  | Decimal.D5 d => digitCode 5 :: ofUint d
  | Decimal.D6 d => digitCode 6 :: ofUint d
  | Decimal.D7 d => digitCode 7 :: ofUint d
  | Decimal.D8 d => digitCode 8 :: ofUint d
  | Decimal.D9 d => digitCode 9 :: ofUint d
  end.

(** [String(n)] for a non-negative integer: its decimal digits. *)
Definition ofN (n : N) : str := ofUint (N.to_uint n).

(** [String(z)] for an integer: a minus sign before the digits of a
    negative one. *)
Definition ofZ (z : Z) : str :=
  match z with
  | Z0 => ofN 0
  | Zpos p => ofN (Npos p)
  | Zneg p => 45%N :: ofN (Npos p)
  end.

Definition isDigit (c : N) : bool := ((48 <=? c) && (c <=? 57))%N.

End JS.

Notation "'#' s" := (JS.lit s%string) (at level 1, format "'#' s").


(* ================================================================== *)
(** * The data of the server *)
(* ================================================================== *)

(** A token of [markdown-it]: the fields the server reads. *)
Record Token := { type : JS.str; content : JS.str }.

(** ** Requests of the Slides API ([requests.push({...})]) *)

Record Dimension := { magnitude : Z; unit : JS.str }.

Record AffineTransform := {
  scaleX : Z; scaleY : Z; translateX : Z; translateY : Z;
  transformUnit : JS.str }.

Record Size := { width : Dimension; height : Dimension }.

Record PageElementProperties := {
  pageObjectId : JS.str; transform : AffineTransform; size : Size }.

(** [bold] is absent from the style of the body text. *)
Record TextStyle := { fontSize : Dimension; bold : option bool }.

Inductive Request :=
| createSlide (objectId : JS.str) (insertionIndex : N)
              (predefinedLayout : JS.str)
| createShape (objectId : JS.str) (shapeType : JS.str)
              (elementProperties : PageElementProperties)
| insertText (objectId : JS.str) (text : JS.str)
| updateTextStyle (objectId : JS.str) (textRangeType : JS.str)
                  (style : TextStyle) (fields : JS.str).

(** ** Errors, credentials, calls and responses *)

(** A thrown value: the properties the [catch] blocks look at. *)
Record Error := { name : JS.str; code : option Z; message : JS.str }.

(** [oauth2Client.credentials]; it is [{}] until a callback succeeds. *)
Record Credentials := {
  access_token : option JS.str; refresh_token : option JS.str }.

Definition noCredentials : Credentials :=
  {| access_token := None; refresh_token := None |}.

(** Calls that leave the process. *)
Inductive Call :=
| GetToken (authCode : option JS.str)
| PresentationsCreate (title : JS.str)
| BatchUpdate (presentationId : JS.str) (requests : list Request).

(** What a route did with [res]; [Rejected] is an async handler whose
    promise rejected before anything was written to [res]. *)
Inductive Response :=
| Redirect (url : JS.str)
| Send (status : N) (body : JS.str)
| RenderIndex (isAuthenticated : bool)
| RenderSuccess (presentationUrl : JS.str)
| Rejected (e : Error).

(** The mutable state of the process and its log. *)
Record World := {
  credentials : Credentials;   (* the slot of [oauth2Client] *)
  clockReads : nat;            (* how often [Date.now()] was read *)
  trace : list Call;           (* calls sent out, oldest first *)
  console : list Error         (* [console.error] *)
}.

Definition setCredentials (c : Credentials) (w : World) : World :=
  {| credentials := c; clockReads := clockReads w;
     trace := trace w; console := console w |}.

Definition tick (w : World) : World :=
  {| credentials := credentials w; clockReads := S (clockReads w);
     trace := trace w; console := console w |}.

Definition record (c : Call) (w : World) : World :=
  {| credentials := credentials w; clockReads := clockReads w;
     trace := trace w ++ [c]; console := console w |}.

Definition consoleError (e : Error) (w : World) : World :=
  {| credentials := credentials w; clockReads := clockReads w;
     trace := trace w; console := console w ++ [e] |}.

(** ** Computations that read the clock, call out, and may throw *)

Inductive Result (A : Type) :=
| Ok (a : A)
| Threw (e : Error).
Arguments Ok {A} a.
Arguments Threw {A} e.

Definition M (A : Type) : Type := World -> Result A * World.

Definition ret {A} (a : A) : M A := fun w => (Ok a, w).

Definition throw {A} (e : Error) : M A := fun w => (Threw e, w).

Definition bind {A B} (c : M A) (k : A -> M B) : M B :=
  fun w => match c w with
           | (Ok a, w') => k a w'
           | (Threw e, w') => (Threw e, w')
           end.

(** [try { c } catch (error) { h error }]. *)
Definition tryCatch {A} (c : M A) (h : Error -> M A) : M A :=
  fun w => match c w with
           | (Ok a, w') => (Ok a, w')
           | (Threw e, w') => h e w'
           end.

Notation "x <- c ;; k" := (bind c (fun x => k))
  (at level 61, c at next level, right associativity).
Notation "c ;;; k" := (bind c (fun _ => k))
  (at level 61, right associativity).

(** [for (const x of xs) { body }] over loop variables of type [S]. *)
Fixpoint forOf {A S} (body : A -> S -> M S) (xs : list A) (s : S) : M S :=
  match xs with
  | [] => ret s
  | x :: xs' => s' <- body x s ;; forOf body xs' s'
  end.

(* ================================================================== *)
(** * The token scan of one slide (lines 114-144) *)
(* ================================================================== *)

(** The bullet of a list item: U+2022 and a space. *)
Definition bullet : JS.str := [0x2022; 0x20]%N.

(** The loop variables [slideTitle] and [slideBodyElements]. *)
Record Slide := { slideTitle : JS.str; slideBodyElements : list JS.str }.

Definition emptySlide : Slide :=
  {| slideTitle := []; slideBodyElements := [] |}.

Definition hasType (t : Token) (s : string) : bool := JS.eqb (type t) #s.

(** [nextToken && nextToken.type === 'inline']: the content of
    [tokens[i + 1]] when that token exists and is an inline token. *)
Definition inlineAfter (tokens : list Token) (i : nat) : option JS.str :=
  match nth_error tokens (i + 1) with
  | Some nextToken =>
      if hasType nextToken "inline" then Some (content nextToken) else None
  | None => None
  end.

(** One pass through the body of the [for] loop at index [i]: the value of
    [i] when the body ends (before the loop's [i++]) and the new values of
    the loop variables. *)
Definition scanBody (tokens : list Token) (i : nat) (s : Slide)
  : nat * Slide :=
  match nth_error tokens i with
  | None => (i, s)
  | Some token =>
      if hasType token "heading_open" then
        match inlineAfter tokens i with
        | Some c =>
            (i + 1, {| slideTitle := c;
                       slideBodyElements := slideBodyElements s |})
        | None => (i, s)
        end
      else if hasType token "paragraph_open"
              || hasType token "list_item_open" then
        match inlineAfter tokens i with
        | Some c =>
            let c' := if hasType token "list_item_open"
                      then bullet ++ c else c in
            (i + 1, {| slideTitle := slideTitle s;
                       slideBodyElements := slideBodyElements s ++ [c'] |})
        | None => (i, s)
        end
      else (i, s)
  end.

(** [for (let i = ...; i < tokens.length; i++)], by the number of passes
    that are left at most. *)
Fixpoint scanLoop (fuel : nat) (tokens : list Token) (i : nat) (s : Slide)
  : Slide :=
  match fuel with
  | O => s
  | S fuel' =>
      if i <? List.length tokens then
        let (i', s') := scanBody tokens i s in
        scanLoop fuel' tokens (i' + 1) s'
      else s
  end.

Definition scanTokens (tokens : list Token) : Slide :=
  scanLoop (List.length tokens) tokens 0 emptySlide.

(** ** The same scan by recursion on the token list *)

Fixpoint scanList (tokens : list Token) (s : Slide) : Slide :=
  match tokens with
  | [] => s
  | token :: rest =>
      if hasType token "heading_open" then
        match rest with
        | next :: rest' =>
            if hasType next "inline"
            then scanList rest' {| slideTitle := content next;
                                   slideBodyElements := slideBodyElements s |}
            else scanList rest s
        | [] => s
        end
      else if hasType token "paragraph_open"
              || hasType token "list_item_open" then
        match rest with
        | next :: rest' =>
            if hasType next "inline"
            then
              let c := if hasType token "list_item_open"
                       then bullet ++ content next else content next in
              scanList rest' {| slideTitle := slideTitle s;
                                slideBodyElements :=
                                  slideBodyElements s ++ [c] |}
            else scanList rest s
        | [] => s
        end
      else scanList rest s
  end.

(** ** What the scan collects, position by position

    [headingTexts]: the content of every inline token that directly
    follows a [heading_open]; [bodyTexts]: the content of every inline
    token that directly follows a [paragraph_open] or a [list_item_open],
    with the bullet before the latter. *)
Fixpoint headingTexts (tokens : list Token) : list JS.str :=
  match tokens with
  | [] => []
  | token :: rest =>
      match rest with
      | next :: _ =>
          if hasType token "heading_open" && hasType next "inline"
          then content next :: headingTexts rest
          else headingTexts rest
      | [] => []
      end
  end.

Fixpoint bodyTexts (tokens : list Token) : list JS.str :=
  match tokens with
  | [] => []
  | token :: rest =>
      match rest with
      | next :: _ =>
          if hasType next "inline" then
            if hasType token "list_item_open"
            then (bullet ++ content next) :: bodyTexts rest
            else if hasType token "paragraph_open"
            then content next :: bodyTexts rest
            else bodyTexts rest
          else bodyTexts rest
      | [] => []
      end
  end.

(* ================================================================== *)
(** * The routes *)
(* ================================================================== *)

(** [markdownText.split('---').map(s => s.trim()).filter(Boolean)]
    (line 93). *)
Definition slidesContent (markdownText : JS.str) : list JS.str :=
  filter JS.truthy (map JS.trim (JS.split #"---" markdownText)).

(** Code units of the messages that are not ASCII. *)
Definition a_acute : N := 0xE1%N.
Definition a_tilde : N := 0xE3%N.
Definition c_cedilla : N := 0xE7%N.
Definition e_acute : N := 0xE9%N.
Definition i_acute : N := 0xED%N.
Definition o_tilde : N := 0xF5%N.
Definition dquote : N := 0x22%N.

Definition presentationTitle : JS.str :=
  #"Apresenta" ++ [c_cedilla; a_tilde] ++ #"o Gerada do Markdown".

Definition msgLoginFirst : JS.str :=
  #"Por favor, autentique-se com o Google primeiro atrav" ++ [e_acute]
  ++ #"s do bot" ++ [a_tilde] ++ #"o de login na p" ++ [a_acute]
  ++ #"gina inicial.".

Definition msgAuthFailed : JS.str :=
  #"Erro na autentica" ++ [c_cedilla; a_tilde] ++ #"o com o Google.".

Definition msgLayout : JS.str :=
  #"Erro: O layout de slide " ++ [dquote] ++ #"TITLE_AND_BODY" ++ [dquote]
  ++ #" pode n" ++ [a_tilde] ++ #"o estar dispon" ++ [i_acute]
  ++ #"vel ou houve um problema na cria" ++ [c_cedilla; a_tilde]
  ++ #"o do slide. Verifique as permiss" ++ [o_tilde]
  ++ #"es da API e tente novamente.".

Definition msgExpired : JS.str :=
  #"Erro de autentica" ++ [c_cedilla; a_tilde]
  ++ #"o: Suas credenciais podem estar expiradas ou inv" ++ [a_acute]
  ++ #"lidas. Por favor, tente fazer login novamente com o Google.".

Definition msgUnexpected (detail : JS.str) : JS.str :=
  #"Ocorreu um erro inesperado ao converter o Markdown para slides: "
  ++ detail.

(** [String.prototype.includes]. *)
Fixpoint includes (s needle : JS.str) : bool :=
  JS.startsWith needle s
  || match s with
     | [] => false
     | _ :: s' => includes s' needle
     end.

(** [String(error)] for an [Error] object. *)
Definition errorToString (e : Error) : JS.str :=
  match name e, message e with
  | [], m => m
  | n, [] => n
  | n, m => n ++ #": " ++ m
  end.

(** [error.message || error] inside the template literal of line 278. *)
Definition errorDetail (e : Error) : JS.str :=
  if JS.truthy (message e) then message e else errorToString e.

(** [!!x] for a property that may be missing. *)
Definition present (x : option JS.str) : bool :=
  match x with
  | Some s => JS.truthy s
  | None => false
  end.

(** [req.body] as [POST /convert] finds it: [undefined] when no parser
    of the application took the body of the request, or else the object
    of the parsed form, in which the text field [markdownText] may be
    missing. *)
Inductive Body :=
| NoBody
| Form (markdownText : option JS.str).

(** [const { markdownText } = undefined] (line 84). *)
Definition destructureOfUndefined : Error :=
  {| name := #"TypeError"; code := None;
     message := #"Cannot destructure property 'markdownText' of "
                ++ #"'req.body' as it is undefined." |}.

(** [undefined.split(...)], when the form had no text field
    [markdownText]. *)
Definition splitOfUndefined : Error :=
  {| name := #"TypeError"; code := None;
     message := #"Cannot read properties of undefined (reading 'split')" |}.

(** [slideTitle || 'Slide ' + (slideCount + 1)] (line 191). *)
Definition titleText (slideTitle : JS.str) (slideCount : N) : JS.str :=
  if JS.truthy slideTitle then slideTitle
  else #"Slide " ++ JS.ofN (slideCount + 1).

Definition pt (m : Z) : Dimension := {| magnitude := m; unit := #"PT" |}.

(** The [elementProperties] of a text box of the slide [page] at
    [(x, y)], [w] by [h] points. *)
Definition textBox (page : JS.str) (x y w h : Z) : PageElementProperties :=
  {| pageObjectId := page;
     transform := {| scaleX := 1; scaleY := 1;
                     translateX := x; translateY := y;
                     transformUnit := #"PT" |};
     size := {| width := pt w; height := pt h |} |}.

Definition slideId (t : Z) (slideCount : N) : JS.str :=
  #"slide_" ++ JS.ofZ t ++ #"_" ++ JS.ofN slideCount.
Definition titleShapeId (t : Z) (slideCount : N) : JS.str :=
  #"title_shape_" ++ JS.ofZ t ++ #"_" ++ JS.ofN slideCount.
Definition bodyShapeId (t : Z) (slideCount : N) : JS.str :=
  #"body_shape_" ++ JS.ofZ t ++ #"_" ++ JS.ofN slideCount.

Definition presentationUrlOf (presentationId : JS.str) : JS.str :=
  #"https://docs.google.com/presentation/d/" ++ presentationId ++ #"/edit".

Section Routes.

(** The collaborators.  What a call to the network answers may depend
    on the calls made before it. *)
Variable parse : JS.str -> list Token.            (* markdownit.parse *)
Variable now : nat -> Z.                (* the n-th reading of the clock *)
Variable authUrl : JS.str.              (* oauth2Client.generateAuthUrl *)
Variable getToken :
  list Call -> option JS.str -> Error + Credentials.
Variable presentationsCreate : list Call -> JS.str -> Error + JS.str.
Variable batchUpdate :
  list Call -> JS.str -> list Request -> Error + Datatypes.unit.

Definition dateNow : M Z :=
  fun w => (Ok (now (clockReads w)), tick w).

Definition callOut {A} (c : Call) (answer : list Call -> Error + A)
  : M A :=
  fun w => match answer (trace w) with
           | inl e => (Threw e, record c w)
           | inr a => (Ok a, record c w)
           end.

(** ** [GET /auth/google] *)
Definition authGoogle (w : World) : Response * World :=
  (Redirect authUrl, w).

(** ** [GET /auth/google/callback] *)
Definition authGoogleCallback (authCode : option JS.str) (w : World)
  : Response * World :=
  match callOut (GetToken authCode) (fun h => getToken h authCode) w with
  | (Ok tokens, w') => (Redirect #"/", setCredentials tokens w')
  | (Threw error, w') => (Send 500 msgAuthFailed, consoleError error w')
  end.

(** ** [GET /] *)
Definition index (w : World) : Response * World :=
  (RenderIndex (present (access_token (credentials w))), w).

(** ** [POST /convert] *)

(** The body of the loop over [slidesContent] (lines 111-255); the loop
    variables are [requests] and [slideCount]. *)
Definition buildSlide (slideMd : JS.str) (st : list Request * N)
  : M (list Request * N) :=
  let (requests, slideCount) := st in
  let tokens := parse slideMd in
  let s := scanTokens tokens in
  t0 <- dateNow ;;
  let slideObjectId := slideId t0 slideCount in
  let requests := requests ++
    [createSlide slideObjectId slideCount #"TITLE_AND_BODY"] in
  t1 <- dateNow ;;
  let titleShapeObjectId := titleShapeId t1 slideCount in
  let requests := requests ++
    [createShape titleShapeObjectId #"TEXT_BOX"
                 (textBox slideObjectId 50 50 600 50)] in
  let requests := requests ++
    [insertText titleShapeObjectId
                (titleText (slideTitle s) slideCount)] in
  let requests := requests ++
    [updateTextStyle titleShapeObjectId #"ALL"
       {| fontSize := pt 24; bold := Some true |} #"fontSize,bold"] in
  t2 <- dateNow ;;
  let bodyShapeObjectId := bodyShapeId t2 slideCount in
  let requests := requests ++
    [createShape bodyShapeObjectId #"TEXT_BOX"
                 (textBox slideObjectId 50 120 600 350)] in
  let requests := requests ++
    [insertText bodyShapeObjectId
                (JS.join [10; 10]%N (slideBodyElements s))] in
  let requests := requests ++
    [updateTextStyle bodyShapeObjectId #"ALL"
       {| fontSize := pt 14; bold := None |} #"fontSize"] in
  ret (requests, (slideCount + 1)%N).

(** The [catch] block of the route (lines 270-280). *)
Definition convertFailed (error : Error) : M Response :=
  fun w =>
    let w' := consoleError error w in
    if match code error with Some 400%Z => true | _ => false end
       && includes (message error) #"LAYOUT_NOT_FOUND"
    then (Ok (Send 500 msgLayout), w')
    else if match code error with Some 401%Z => true | _ => false end
    then (Ok (Send 401 msgExpired), w')
    else (Ok (Send 500 (msgUnexpected (errorDetail error))), w').

(** The [try] block of the route (lines 98-268). *)
Definition convertTry (fragments : list JS.str) : M Response :=
  presentationId <-
    callOut (PresentationsCreate presentationTitle)
            (fun h => presentationsCreate h presentationTitle) ;;
  st <- forOf buildSlide fragments ([], 0%N) ;;
  let requests := fst st in
  (if 0 <? List.length requests
   then callOut (BatchUpdate presentationId requests)
                (fun h => batchUpdate h presentationId requests)
   else ret tt) ;;;
  ret (RenderSuccess (presentationUrlOf presentationId)).

(** The handler.  It takes [markdownText] out of [req.body] first (line
    84), which throws when [req.body] is [undefined]; the guard of the
    credentials comes after that (line 87), and [split] is called on the
    text after the guard and before the [try] block (line 93). *)
Definition convert (body : Body) (w : World) : Response * World :=
  match body with
  | NoBody => (Rejected destructureOfUndefined, w)
  | Form markdownText =>
      if negb (present (access_token (credentials w))) then
        (Send 401 msgLoginFirst, w)
      else
        match markdownText with
        | None => (Rejected splitOfUndefined, w)
        | Some md =>
            match tryCatch (convertTry (slidesContent md)) convertFailed w
            with
            | (Ok r, w') => (r, w')
            | (Threw e, w') => (Rejected e, w')
            end
        end
  end.

End Routes.

(* ================================================================== *)
(** * Vocabulary of the specification *)
(* ================================================================== *)

(** [Separated sep pieces s]: [s] is [pieces] with one [sep] between
    neighbours, every [sep] sitting at the leftmost place where [sep]
    occurs after the one before it, and no [sep] in the last piece. *)
Inductive Separated (sep : JS.str) : list JS.str -> JS.str -> Prop :=
| separated_last p :
    includes p sep = false -> Separated sep [p] p
| separated_cons p pieces rest :
    includes (p ++ removelast sep) sep = false ->
    Separated sep pieces rest ->
    Separated sep (p :: pieces) (p ++ sep ++ rest).

(** A document that consists of delimiters ["---"] and whitespace only. *)
Inductive Blank : JS.str -> Prop :=
| blank_empty : Blank []
| blank_space c s : JS.isWhiteSpace c = true -> Blank s -> Blank (c :: s)
| blank_delimiter s : Blank s -> Blank (#"---" ++ s).

(** A string without whitespace at either end. *)
Definition Trimmed (s : JS.str) : Prop :=
  (forall c r, s = c :: r -> JS.isWhiteSpace c = false) /\
  (forall c r, s = r ++ [c] -> JS.isWhiteSpace c = false).

(** The requests of one slide, in the order of the specification, from
    the three clock readings, the slide's index and the scanned slide. *)
Definition slideGroup (t0 t1 t2 : Z) (slideCount : N) (s : Slide)
  : list Request :=
  [ createSlide (slideId t0 slideCount) slideCount #"TITLE_AND_BODY";
    createShape (titleShapeId t1 slideCount) #"TEXT_BOX"
                (textBox (slideId t0 slideCount) 50 50 600 50);
    insertText (titleShapeId t1 slideCount)
               (titleText (slideTitle s) slideCount);
    updateTextStyle (titleShapeId t1 slideCount) #"ALL"
                    {| fontSize := pt 24; bold := Some true |}
                    #"fontSize,bold";
    createShape (bodyShapeId t2 slideCount) #"TEXT_BOX"
                (textBox (slideId t0 slideCount) 50 120 600 350);
    insertText (bodyShapeId t2 slideCount)
               (JS.join [10; 10]%N (slideBodyElements s));
    updateTextStyle (bodyShapeId t2 slideCount) #"ALL"
                    {| fontSize := pt 14; bold := None |} #"fontSize" ].

(** The batch of a list of fragments: the groups of the fragments, the
    first with index [slideCount] when the clock was read [reads] times. *)
Fixpoint batchFrom (parse : JS.str -> list Token) (now : nat -> Z)
    (fragments : list JS.str) (slideCount : N) (reads : nat)
  : list Request :=
  match fragments with
  | [] => []
  | slideMd :: fragments' =>
      slideGroup (now reads) (now (S reads)) (now (S (S reads)))
                 slideCount (scanTokens (parse slideMd))
      ++ batchFrom parse now fragments' (slideCount + 1)
                   (S (S (S reads)))
  end.

(** The object identifiers that a batch creates. *)
Fixpoint objectIds (requests : list Request) : list JS.str :=
  match requests with
  | [] => []
  | createSlide objectId _ _ :: requests' => objectId :: objectIds requests'
  | createShape objectId _ _ :: requests' => objectId :: objectIds requests'
  | _ :: requests' => objectIds requests'
  end.

(** The first block of a token stream is a heading with the text [T]. *)
Definition FirstBlockHeading (tokens : list Token) (T : JS.str) : Prop :=
  exists t next rest,
    tokens = t :: next :: rest /\
    hasType t "heading_open" = true /\
    hasType next "inline" = true /\ content next = T.

(** The token stream with [f] applied to the text of every heading. *)
Fixpoint retitle (f : JS.str -> JS.str) (tokens : list Token)
  : list Token :=
  match tokens with
  | [] => []
  | t :: rest =>
      match rest with
      | next :: rest' =>
          if hasType t "heading_open" && hasType next "inline"
          then t :: {| type := type next; content := f (content next) |}
                 :: retitle f rest'
          else t :: retitle f rest
      | [] => [t]
      end
  end.

(** A token without text, and an inline token with its text. *)
Definition tok (t : string) : Token := {| type := #t; content := [] |}.
Definition inline (c : string) : Token :=
  {| type := #"inline"; content := #c |}.

(** The tokens that [markdown-it] gives for the fragment of two list
    items, a hyphen and [a] on one line, a hyphen and [b] on the next:
    the text of a list item is wrapped in a paragraph, whose tokens are
    in the stream also when the list is tight and they are hidden. *)
Definition listItemsAB : list Token :=
  [ tok "bullet_list_open";
    tok "list_item_open"; tok "paragraph_open";
    inline "a";
    tok "paragraph_close"; tok "list_item_close";
    tok "list_item_open"; tok "paragraph_open";
    inline "b";
    tok "paragraph_close"; tok "list_item_close";
    tok "bullet_list_close" ].

(** The tokens of a fragment of two headings, [# A] and [# B]. *)
Definition headingsAB : list Token :=
  [ tok "heading_open"; inline "A"; tok "heading_close";
    tok "heading_open"; inline "B"; tok "heading_close" ].

Definition nl : JS.str := [10]%N.

(** The document of the specification's example: a heading [Hello], a
    paragraph [World], the delimiter, and two list items [a] and [b]. *)
Definition helloDocument : JS.str :=
  #"# Hello" ++ nl ++ nl ++ #"World" ++ nl ++ nl ++ #"---" ++ nl ++ nl
  ++ #"- a" ++ nl ++ #"- b".

(** The body line that a token and its successor give, if any. *)
Definition bodyLineOf (t next : Token) : list JS.str :=
  if hasType next "inline" then
    if hasType t "list_item_open" then [bullet ++ content next]
    else if hasType t "paragraph_open" then [content next]
    else []
  else [].

(** ** Vocabulary for the segmentation *)

(** A string of whitespace only. *)
Definition Whitespace (s : JS.str) : Prop :=
  Forall (fun c => JS.isWhiteSpace c = true) s.

(** [Scattered fragments s]: the fragments lie in [s] one after the
    other, in this order and without overlap. *)
Inductive Scattered : list JS.str -> JS.str -> Prop :=
| scattered_none s : Scattered [] s
| scattered_next before f fragments rest :
    Scattered fragments rest ->
    Scattered (f :: fragments) (before ++ f ++ rest).

(** ** Vocabulary for the token scan *)

(** The content of every inline token that directly follows a
    [paragraph_open]. *)
Fixpoint paragraphTexts (tokens : list Token) : list JS.str :=
  match tokens with
  | [] => []
  | t :: rest =>
      match rest with
      | next :: _ =>
          if hasType t "paragraph_open" && hasType next "inline"
          then content next :: paragraphTexts rest
          else paragraphTexts rest
      | [] => []
      end
  end.

(** No [list_item_open] is directly followed by an inline token. *)
Fixpoint listItemsWrapped (tokens : list Token) : bool :=
  match tokens with
  | [] => true
  | t :: rest =>
      match rest with
      | next :: _ =>
          negb (hasType t "list_item_open" && hasType next "inline")
          && listItemsWrapped rest
      | [] => true
      end
  end.

(** A token that opens none of the blocks that the scan looks at. *)
Definition unrecognised (t : Token) : bool :=
  negb (hasType t "heading_open" || hasType t "paragraph_open"
        || hasType t "list_item_open").

(** ** Vocabulary for a batch *)

(** The insertion indices of the slides that a batch creates. *)
Fixpoint insertionIndices (requests : list Request) : list N :=
  match requests with
  | [] => []
  | createSlide _ insertionIndex _ :: requests' =>
      insertionIndex :: insertionIndices requests'
  | _ :: requests' => insertionIndices requests'
  end.

Definition mem (id : JS.str) (ids : list JS.str) : bool :=
  existsb (JS.eqb id) ids.

(** Every request of the batch refers to an object that a request
    before it creates: a shape to its slide, a text or a style to its
    shape.  [slides] and [shapes] are the objects created so far. *)
Fixpoint refersBack (slides shapes : list JS.str)
    (requests : list Request) : bool :=
  match requests with
  | [] => true
  | createSlide objectId _ _ :: requests' =>
      refersBack (objectId :: slides) shapes requests'
  | createShape objectId _ elementProperties :: requests' =>
      mem (pageObjectId elementProperties) slides
      && refersBack slides (objectId :: shapes) requests'
  | insertText objectId _ :: requests' =>
      mem objectId shapes && refersBack slides shapes requests'
  | updateTextStyle objectId _ _ _ :: requests' =>
      mem objectId shapes && refersBack slides shapes requests'
  end.

(** ** Vocabulary for the routes *)

(** The response that the [catch] block of [POST /convert] sends for a
    thrown value (lines 273-279). *)
Definition catchResponse (error : Error) : Response :=
  if match code error with Some 400%Z => true | _ => false end
     && includes (message error) #"LAYOUT_NOT_FOUND"
  then Send 500 msgLayout
  else if match code error with Some 401%Z => true | _ => false end
  then Send 401 msgExpired
  else Send 500 (msgUnexpected (errorDetail error)).

(** The world after [k] more readings of the clock. *)
Definition advance (k : nat) (w : World) : World :=
  {| credentials := credentials w; clockReads := k + clockReads w;
     trace := trace w; console := console w |}.

(** The process when it starts: no credentials, nothing sent. *)
Definition initialWorld : World :=
  {| credentials := noCredentials; clockReads := 0;
     trace := []; console := [] |}.

(** A call to the Slides API. *)
Definition isSlidesCall (c : Call) : bool :=
  match c with
  | GetToken _ => false
  | PresentationsCreate _ => true
  | BatchUpdate _ _ => true
  end.

(** The requests that the routes registered with [app.get] and
    [app.post] answer. *)
Inductive HttpRequest :=
| GetAuthGoogle
| GetAuthGoogleCallback (authCode : option JS.str)
| GetIndex
| PostConvert (body : Body).

Section Server.

Variable parse : JS.str -> list Token.
Variable now : nat -> Z.
Variable authUrl : JS.str.
Variable getToken : list Call -> option JS.str -> Error + Credentials.
Variable presentationsCreate : list Call -> JS.str -> Error + JS.str.
Variable batchUpdate :
  list Call -> JS.str -> list Request -> Error + Datatypes.unit.

(** The handler of the route that matches the request. *)
Definition serve (req : HttpRequest) (w : World) : Response * World :=
  match req with
  | GetAuthGoogle => authGoogle authUrl w
  | GetAuthGoogleCallback authCode =>
      authGoogleCallback getToken authCode w
  | GetIndex => index w
  | PostConvert body =>
      convert parse now presentationsCreate batchUpdate body w
  end.

(** Requests handled one after the other, each to its end. *)
Fixpoint serveAll (reqs : list HttpRequest) (w : World)
  : list Response * World :=
  match reqs with
  | [] => ([], w)
  | req :: reqs' =>
      let (r, w') := serve req w in
      let (rs, w'') := serveAll reqs' w' in
      (r :: rs, w'')
  end.

End Server.

(** [Trimmed], as a test. *)
Definition trimmedb (s : JS.str) : bool :=
  negb (existsb JS.isWhiteSpace (firstn 1 s))
  && negb (existsb JS.isWhiteSpace (firstn 1 (rev s))).

(** What [POST /convert] answers when there is no access token. *)
Definition guardAnswer (body : Body) : Response :=
  match body with
  | NoBody => Rejected destructureOfUndefined
  | Form _ => Send 401 msgLoginFirst
  end.

(** No credentials, and nothing sent to the Slides API so far. *)
Definition LoggedOut (w : World) : Prop :=
  credentials w = noCredentials /\
  Forall (fun c => isSlidesCall c = false) (trace w).

(* ================================================================== *)
(** * Properties of the token scan *)
(* ================================================================== *)

(** Two different type names never hold of one token. *)
Ltac other_type H :=
  unfold hasType in *; apply JS.eqb_eq in H; rewrite H; reflexivity.

Lemma heading_not_paragraph t :
  hasType t "heading_open" = true -> hasType t "paragraph_open" = false.
Proof. intro H. other_type H. Qed.

Lemma heading_not_list_item t :
  hasType t "heading_open" = true -> hasType t "list_item_open" = false.
Proof. intro H. other_type H. Qed.

Lemma list_item_not_paragraph t :
  hasType t "list_item_open" = true -> hasType t "paragraph_open" = false.
Proof. intro H. other_type H. Qed.

Lemma inline_not_heading t :
  hasType t "inline" = true -> hasType t "heading_open" = false.
Proof. intro H. other_type H. Qed.

Lemma inline_not_paragraph t :
  hasType t "inline" = true -> hasType t "paragraph_open" = false.
Proof. intro H. other_type H. Qed.

Lemma inline_not_list_item t :
  hasType t "inline" = true -> hasType t "list_item_open" = false.
Proof. intro H. other_type H. Qed.

(** ** The loop by index is the recursion on the list *)

Lemma nth_error_skipn {A} (l : list A) (i : nat) :
  nth_error l i = hd_error (skipn i l).
Proof.
  revert l. induction i as [|i IH]; intros [|x l]; simpl; auto.
Qed.

Lemma skipn_succ_tl {A} (l : list A) (i : nat) :
  skipn (i + 1) l = tl (skipn i l).
Proof.
  revert l. induction i as [|i IH]; intros [|x l]; simpl; auto.
Qed.

Lemma skipn_nil_length {A} (l : list A) (i : nat) :
  skipn i l = [] -> (i <? List.length l) = false.
Proof.
  intro H. apply Nat.ltb_ge.
  pose proof (length_skipn i l) as L. rewrite H in L. simpl in L. lia.
Qed.

Lemma skipn_cons_length {A} (l : list A) (i : nat) x r :
  skipn i l = x :: r ->
  (i <? List.length l) = true /\ List.length l - i = S (List.length r).
Proof.
  intro H. pose proof (length_skipn i l) as L. rewrite H in L. simpl in L.
  split; [apply Nat.ltb_lt|]; lia.
Qed.

Lemma inlineAfter_skipn tokens i token rest :
  skipn i tokens = token :: rest ->
  inlineAfter tokens i =
  match rest with
  | next :: _ => if hasType next "inline" then Some (content next) else None
  | [] => None
  end.
Proof.
  intro H. unfold inlineAfter.
  rewrite nth_error_skipn, skipn_succ_tl, H. simpl.
  destruct rest; reflexivity.
Qed.

Lemma scanLoop_scanList fuel : forall tokens i s,
  List.length tokens - i <= fuel ->
  scanLoop fuel tokens i s = scanList (skipn i tokens) s.
Proof.
  induction fuel as [|fuel IH]; intros tokens i s Hfuel.
  - destruct (skipn i tokens) as [|token rest] eqn:E; [reflexivity|].
    apply skipn_cons_length in E. lia.
  - simpl. destruct (skipn i tokens) as [|token rest] eqn:E.
    + now rewrite (skipn_nil_length _ _ E).
    + destruct (skipn_cons_length _ _ _ _ E) as [Hlt Hlen]. rewrite Hlt.
      assert (Hrest : skipn (i + 1) tokens = rest)
        by now rewrite skipn_succ_tl, E.
      assert (Hrest' : skipn (i + 1 + 1) tokens = tl rest)
        by now rewrite skipn_succ_tl, Hrest.
      unfold scanBody.
      rewrite nth_error_skipn, E, (inlineAfter_skipn _ _ _ _ E). simpl.
      destruct (hasType token "heading_open");
        [|destruct (hasType token "paragraph_open"
                    || hasType token "list_item_open")];
        try (rewrite IH, Hrest by lia; reflexivity);
        (destruct rest as [|next rest'];
         [ rewrite IH, Hrest by lia; reflexivity
         | destruct (hasType next "inline");
           [ rewrite IH, Hrest' by (simpl in Hlen; lia); reflexivity
           | rewrite IH, Hrest by lia; reflexivity ] ]).
Qed.

(** The loop of the source ends because [i] reaches [tokens.length], and
    gives what the recursion on the list gives. *)
Lemma scanTokens_scanList tokens :
  scanTokens tokens = scanList tokens emptySlide.
Proof.
  unfold scanTokens. rewrite scanLoop_scanList by lia. reflexivity.
Qed.

Lemma scanLoop_enough_fuel fuel tokens :
  List.length tokens <= fuel ->
  scanLoop fuel tokens 0 emptySlide = scanTokens tokens.
Proof.
  intro H. rewrite scanTokens_scanList, scanLoop_scanList by lia.
  reflexivity.
Qed.

(** ** What the scan collects *)

Lemma bodyTexts_inline next rest :
  hasType next "inline" = true -> bodyTexts (next :: rest) = bodyTexts rest.
Proof.
  intro H. simpl. destruct rest as [|t rest]; [reflexivity|].
  rewrite (inline_not_list_item _ H), (inline_not_paragraph _ H).
  now destruct (hasType t "inline").
Qed.

Lemma headingTexts_inline next rest :
  hasType next "inline" = true ->
  headingTexts (next :: rest) = headingTexts rest.
Proof.
  intro H. simpl. destruct rest as [|t rest]; [reflexivity|].
  now rewrite (inline_not_heading _ H).
Qed.

(** Induction on token lists that may drop two tokens at once. *)
Lemma token_list_ind2 (P : list Token -> Prop) :
  P [] ->
  (forall t, P [t]) ->
  (forall t next rest, P (next :: rest) -> P rest -> P (t :: next :: rest)) ->
  forall l, P l.
Proof.
  intros H0 H1 H2 l.
  enough (P l /\ forall t, P (t :: l)) by tauto.
  induction l as [|x l [IHa IHb]]; split; auto.
Qed.

Lemma scanList_body tokens : forall s,
  slideBodyElements (scanList tokens s) =
  slideBodyElements s ++ bodyTexts tokens.
Proof.
  induction tokens as [|t|t next rest IH1 IH2] using token_list_ind2;
    intro s.
  - simpl. now rewrite app_nil_r.
  - simpl. rewrite app_nil_r.
    now destruct (hasType t "heading_open"),
      (hasType t "paragraph_open" || hasType t "list_item_open").
  - change (scanList (t :: next :: rest) s) with
      (if hasType t "heading_open" then
         if hasType next "inline"
         then scanList rest {| slideTitle := content next;
                               slideBodyElements := slideBodyElements s |}
         else scanList (next :: rest) s
       else if hasType t "paragraph_open" || hasType t "list_item_open" then
         if hasType next "inline"
         then scanList rest
                {| slideTitle := slideTitle s;
                   slideBodyElements :=
                     slideBodyElements s ++
                     [if hasType t "list_item_open"
                      then bullet ++ content next else content next] |}
         else scanList (next :: rest) s
       else scanList (next :: rest) s).
    change (bodyTexts (t :: next :: rest)) with
      (if hasType next "inline" then
         if hasType t "list_item_open"
         then (bullet ++ content next) :: bodyTexts (next :: rest)
         else if hasType t "paragraph_open"
         then content next :: bodyTexts (next :: rest)
         else bodyTexts (next :: rest)
       else bodyTexts (next :: rest)).
    destruct (hasType t "heading_open") eqn:Hh.
    + rewrite (heading_not_list_item _ Hh), (heading_not_paragraph _ Hh).
      destruct (hasType next "inline") eqn:Hi.
      * rewrite IH2, (bodyTexts_inline _ _ Hi). reflexivity.
      * apply IH1.
    + destruct (hasType next "inline") eqn:Hi.
      * rewrite (bodyTexts_inline _ _ Hi).
        destruct (hasType t "list_item_open") eqn:Hl.
        -- rewrite orb_true_r, IH2. simpl. now rewrite <- app_assoc.
        -- rewrite orb_false_r.
           destruct (hasType t "paragraph_open");
             [|now rewrite IH1, (bodyTexts_inline _ _ Hi)].
           rewrite IH2. simpl. now rewrite <- app_assoc.
      * destruct (hasType t "paragraph_open" || hasType t "list_item_open");
          apply IH1.
Qed.

Lemma last_cons {A} (l : list A) : forall x d, last (x :: l) d = last l x.
Proof.
  induction l as [|y l IH]; intros x d; [reflexivity|].
  change (last (x :: y :: l) d) with (last (y :: l) d).
  now rewrite !IH.
Qed.

Lemma scanList_title tokens : forall s,
  slideTitle (scanList tokens s) = last (headingTexts tokens) (slideTitle s).
Proof.
  induction tokens as [|t|t next rest IH1 IH2] using token_list_ind2;
    intro s.
  - reflexivity.
  - simpl.
    now destruct (hasType t "heading_open"),
      (hasType t "paragraph_open" || hasType t "list_item_open").
  - change (scanList (t :: next :: rest) s) with
      (if hasType t "heading_open" then
         if hasType next "inline"
         then scanList rest {| slideTitle := content next;
                               slideBodyElements := slideBodyElements s |}
         else scanList (next :: rest) s
       else if hasType t "paragraph_open" || hasType t "list_item_open" then
         if hasType next "inline"
         then scanList rest
                {| slideTitle := slideTitle s;
                   slideBodyElements :=
                     slideBodyElements s ++
                     [if hasType t "list_item_open"
                      then bullet ++ content next else content next] |}
         else scanList (next :: rest) s
       else scanList (next :: rest) s).
    change (headingTexts (t :: next :: rest)) with
      (if hasType t "heading_open" && hasType next "inline"
       then content next :: headingTexts (next :: rest)
       else headingTexts (next :: rest)).
    destruct (hasType t "heading_open") eqn:Hh; simpl andb.
    + destruct (hasType next "inline") eqn:Hi; [|apply IH1].
      rewrite IH2, (headingTexts_inline _ _ Hi), last_cons. reflexivity.
    + destruct (hasType next "inline") eqn:Hi.
      * rewrite (headingTexts_inline _ _ Hi).
        destruct (hasType t "paragraph_open" || hasType t "list_item_open");
          [now rewrite IH2|now rewrite IH1, (headingTexts_inline _ _ Hi)].
      * destruct (hasType t "paragraph_open" || hasType t "list_item_open");
          apply IH1.
Qed.

(* ================================================================== *)
(** * Properties of [split], [trim] and the segmentation *)
(* ================================================================== *)

Lemma startsWith_app sep rest : JS.startsWith sep (sep ++ rest) = true.
Proof.
  induction sep as [|a sep IH]; simpl; [reflexivity|].
  now rewrite N.eqb_refl.
Qed.

Lemma startsWith_inv sep : forall s,
  JS.startsWith sep s = true -> exists rest, s = sep ++ rest.
Proof.
  induction sep as [|a sep IH]; intros s H.
  - now exists s.
  - destruct s as [|b s]; [discriminate|]. simpl in H.
    apply andb_true_iff in H as [Hab Hs]. apply N.eqb_eq in Hab. subst b.
    destruct (IH _ Hs) as [rest ->]. now exists rest.
Qed.

(** Only the first [length sep] code units matter. *)
Lemma startsWith_long sep : forall a b,
  List.length sep <= List.length a ->
  JS.startsWith sep (a ++ b) = JS.startsWith sep a.
Proof.
  induction sep as [|x sep IH]; intros a b H; [reflexivity|].
  destruct a as [|y a]; simpl in *; [lia|].
  rewrite IH by lia. reflexivity.
Qed.

Lemma startsWith_short sep : forall s,
  List.length s < List.length sep -> JS.startsWith sep s = false.
Proof.
  induction sep as [|x sep IH]; intros s H; simpl in *; [lia|].
  destruct s as [|y s]; [reflexivity|]. simpl in H.
  rewrite IH by lia. apply andb_false_r.
Qed.

Lemma includes_short sep : forall s,
  List.length s < List.length sep -> includes s sep = false.
Proof.
  induction s as [|c s IH]; intro H; simpl.
  - rewrite startsWith_short by assumption. reflexivity.
  - rewrite startsWith_short by assumption. simpl in H.
    apply IH. lia.
Qed.

Lemma length_removelast_lt (sep : JS.str) :
  sep <> [] -> List.length (removelast sep) < List.length sep.
Proof.
  intro H. destruct (exists_last H) as (l & x & ->).
  rewrite removelast_last, length_app. simpl. lia.
Qed.

Lemma startsWith_before_sep sep c p rest :
  sep <> [] ->
  JS.startsWith sep ((c :: p) ++ sep ++ rest) =
  JS.startsWith sep ((c :: p) ++ removelast sep).
Proof.
  intro H. destruct (exists_last H) as (l & x & ->).
  rewrite removelast_last, <- !app_assoc, app_assoc.
  apply startsWith_long. rewrite !length_app. simpl. lia.
Qed.

(** The code units of a separator that was found are passed over. *)
Lemma splitFrom_skip sep s : forall cur rest,
  JS.splitFrom sep (List.length s) cur (s ++ rest) =
  JS.splitFrom sep 0 cur rest.
Proof.
  induction s as [|c s IH]; intros cur rest; simpl.
  - now destruct rest.
  - apply IH.
Qed.

Section Split.

Variable sep : JS.str.
Hypothesis sep_nonempty : sep <> [].

Lemma splitFrom_at_sep cur rest :
  JS.splitFrom sep 0 cur (sep ++ rest) =
  rev cur :: JS.splitFrom sep 0 [] rest.
Proof.
  pose proof (startsWith_app sep rest) as Hs.
  destruct sep as [|c sep'] eqn:E; [congruence|].
  change ((c :: sep') ++ rest) with (c :: sep' ++ rest) in *.
  cbn [JS.splitFrom]. rewrite Hs. f_equal.
  replace (List.length (c :: sep') - 1) with (List.length sep')
    by (simpl; lia).
  apply splitFrom_skip.
Qed.

(** Code units before the leftmost separator go to the current piece. *)
Lemma splitFrom_before_sep p : forall cur rest,
  includes (p ++ removelast sep) sep = false ->
  JS.splitFrom sep 0 cur (p ++ sep ++ rest) =
  JS.splitFrom sep 0 (rev p ++ cur) (sep ++ rest).
Proof.
  induction p as [|c p IH]; intros cur rest H; [reflexivity|].
  pose proof (startsWith_before_sep sep c p rest sep_nonempty) as E.
  cbn [app] in H, E |- *.
  cbn [includes] in H. apply orb_false_iff in H as [H1 H2].
  rewrite <- E in H1.
  cbn [JS.splitFrom]. rewrite H1, IH by assumption.
  simpl. now rewrite <- app_assoc.
Qed.

Lemma splitFrom_no_sep p : forall cur,
  includes p sep = false ->
  JS.splitFrom sep 0 cur p = [rev cur ++ p].
Proof.
  induction p as [|c p IH]; intros cur H.
  - simpl. now rewrite app_nil_r.
  - cbn [includes] in H. apply orb_false_iff in H as [H1 H2].
    cbn [JS.splitFrom]. rewrite H1, IH by assumption.
    simpl. now rewrite <- app_assoc.
Qed.

Lemma split_unfold s : JS.split sep s = JS.splitFrom sep 0 [] s.
Proof. unfold JS.split. destruct sep; congruence. Qed.

(** [split] returns the separated pieces, whatever they are. *)
Lemma split_separated pieces s :
  Separated sep pieces s -> JS.split sep s = pieces.
Proof.
  rewrite split_unfold.
  induction 1 as [p H|p pieces rest H _ IH].
  - now rewrite splitFrom_no_sep.
  - rewrite splitFrom_before_sep, splitFrom_at_sep by assumption.
    now rewrite app_nil_r, rev_involutive, IH.
Qed.

End Split.

(** ** Every string is separated in exactly one way *)

Lemma leftmost_occurrence sep :
  sep <> [] ->
  forall s, includes s sep = true ->
  exists p rest,
    s = p ++ sep ++ rest /\ includes (p ++ removelast sep) sep = false.
Proof.
  intros Hsep s. induction s as [|c s IH]; intro H.
  - simpl in H. rewrite orb_false_r in H.
    apply startsWith_inv in H as [rest H].
    destruct sep; [congruence|discriminate].
  - destruct (JS.startsWith sep (c :: s)) eqn:Hs.
    + apply startsWith_inv in Hs as [rest ->].
      exists [], rest. split; [reflexivity|].
      apply includes_short, length_removelast_lt, Hsep.
    + cbn [includes] in H. rewrite Hs in H. simpl in H.
      destruct (IH H) as (p & rest & -> & Hp).
      exists (c :: p), rest. split; [reflexivity|].
      pose proof (startsWith_before_sep sep c p rest Hsep) as E.
      cbn [app] in E |- *. cbn [includes].
      rewrite <- E. rewrite Hs, Hp. reflexivity.
Qed.

Lemma separated_exists sep :
  sep <> [] -> forall s, exists pieces, Separated sep pieces s.
Proof.
  intros Hsep s.
  remember (List.length s) as n eqn:Hn. revert s Hn.
  induction n as [n IH] using lt_wf_ind. intros s ->.
  destruct (includes s sep) eqn:Hi.
  - destruct (leftmost_occurrence sep Hsep s Hi) as (p & rest & -> & Hp).
    destruct (IH (List.length rest)) with (s := rest) as [pieces Hpieces];
      [|reflexivity|].
    + rewrite !length_app. destruct sep; [congruence|simpl; lia].
    + exists (p :: pieces). now constructor.
  - exists [s]. now constructor.
Qed.

Lemma separated_unique sep pieces pieces' s :
  sep <> [] ->
  Separated sep pieces s -> Separated sep pieces' s -> pieces = pieces'.
Proof.
  intros Hsep H H'.
  rewrite <- (split_separated sep Hsep pieces s H).
  now apply split_separated.
Qed.

(** The pieces, put together again, are the string. *)
Lemma separated_join sep pieces s :
  Separated sep pieces s -> JS.join sep pieces = s.
Proof.
  induction 1 as [p H|p pieces rest H Hs IH]; [reflexivity|].
  cbn [JS.join]. rewrite IH. now destruct Hs.
Qed.

(** ** [trim] *)

Lemma dropWhile_all p s :
  Forall (fun c => p c = true) s -> JS.dropWhile p s = [].
Proof.
  induction 1 as [|c s Hc _ IH]; simpl; [reflexivity|]. now rewrite Hc.
Qed.

Lemma trim_whitespace s :
  Forall (fun c => JS.isWhiteSpace c = true) s -> JS.trim s = [].
Proof.
  intro H. unfold JS.trim, JS.trimStart, JS.trimEnd.
  now rewrite (dropWhile_all _ _ H).
Qed.

(** What [dropWhile] removes and what it leaves. *)
Lemma dropWhile_spec p s :
  exists l,
    s = l ++ JS.dropWhile p s /\ Forall (fun c => p c = true) l /\
    forall c r, JS.dropWhile p s = c :: r -> p c = false.
Proof.
  induction s as [|x s (l & E & Hl & Hd)].
  - exists []. repeat split; [constructor|discriminate].
  - simpl. destruct (p x) eqn:Hx.
    + exists (x :: l).
      repeat split; [simpl; congruence|now constructor|exact Hd].
    + exists []. repeat split; [constructor|]. intros c r [= <- _]. exact Hx.
Qed.

Lemma dropWhile_suffix p s :
  exists l, s = l ++ JS.dropWhile p s.
Proof. destruct (dropWhile_spec p s) as (l & E & _). now exists l. Qed.

(** [trim] removes a run of whitespace at each end and nothing else, and
    what is left has no whitespace at either end. *)
Lemma trim_spec s :
  exists l r,
    s = l ++ JS.trim s ++ r /\
    Forall (fun c => JS.isWhiteSpace c = true) l /\
    Forall (fun c => JS.isWhiteSpace c = true) r /\
    Trimmed (JS.trim s).
Proof.
  unfold JS.trim, JS.trimEnd, JS.trimStart.
  destruct (dropWhile_spec JS.isWhiteSpace s) as (l & El & Hl & Hfirst).
  set (m := JS.dropWhile JS.isWhiteSpace s) in *.
  destruct (dropWhile_spec JS.isWhiteSpace (rev m)) as (r & Er & Hr & Hlast).
  set (k := JS.dropWhile JS.isWhiteSpace (rev m)) in *.
  assert (Em : m = rev k ++ rev r).
  { rewrite <- rev_app_distr, <- Er. now rewrite rev_involutive. }
  exists l, (rev r). repeat split.
  - now rewrite <- Em.
  - exact Hl.
  - apply Forall_rev, Hr.
  - intros c t E. destruct (rev k) as [|c' t'] eqn:Ek; [discriminate|].
    injection E as -> ->. apply (Hfirst c (t ++ rev r)).
    rewrite Em. reflexivity.
  - intros c t E. apply (Hlast c (rev t)).
    rewrite <- (rev_involutive k), E, rev_app_distr. reflexivity.
Qed.

(** ** Documents of delimiters and whitespace *)

Lemma whitespace_not_hyphen c :
  JS.isWhiteSpace c = true -> (45 =? c)%N = false.
Proof.
  intro H. destruct (N.eqb_spec 45 c) as [<-|]; [discriminate|reflexivity].
Qed.

Lemma splitFrom_blank s :
  Blank s ->
  forall cur, Forall (fun c => JS.isWhiteSpace c = true) cur ->
  Forall (Forall (fun c => JS.isWhiteSpace c = true))
         (JS.splitFrom #"---" 0 cur s).
Proof.
  induction 1 as [|c s Hc _ IH|s _ IH]; intros cur Hcur.
  - simpl. constructor; [|constructor]. now apply Forall_rev.
  - cbn [JS.splitFrom].
    replace (JS.startsWith #"---" (c :: s)) with false.
    + apply IH. now constructor.
    + change (JS.startsWith #"---" (c :: s))
        with ((45 =? c)%N && JS.startsWith #"--" s).
      now rewrite (whitespace_not_hyphen c Hc).
  - rewrite splitFrom_at_sep by discriminate.
    constructor; [now apply Forall_rev|]. apply IH. constructor.
Qed.

Lemma slidesContent_blank markdownText :
  Blank markdownText -> slidesContent markdownText = [].
Proof.
  intro H. unfold slidesContent.
  change (JS.split #"---" markdownText)
    with (JS.splitFrom #"---" 0 [] markdownText).
  pose proof (splitFrom_blank _ H [] (Forall_nil _)) as Hall.
  induction Hall as [|p ps Hp _ IH]; [reflexivity|].
  simpl. now rewrite (trim_whitespace p Hp).
Qed.

Lemma slidesContent_fragments markdownText :
  Forall (fun f => f <> [] /\ Trimmed f) (slidesContent markdownText).
Proof.
  unfold slidesContent. apply Forall_forall. intros f Hf.
  apply filter_In in Hf as [Hin Hne]. split.
  - now destruct f.
  - apply in_map_iff in Hin as (p & <- & _).
    now destruct (trim_spec p) as (_ & _ & _ & _ & _ & H).
Qed.

(** C3: for every document, the segmentation with the delimiter ["---"]
    gives exactly the pieces between the delimiters (delimiters found
    from the left, as [split] finds them), each piece trimmed, the pieces
    that are empty after trimming dropped, in the order of the document:
    such pieces exist for every document, and whatever they are, the
    result is their trimmed non-empty members in order; every fragment
    returned is non-empty and has no whitespace at either end; and a
    document of delimiters and whitespace only (the empty one among
    them) gives no fragment at all. *)
Theorem segment_separated_pieces (markdownText : JS.str) :
  (exists pieces, Separated #"---" pieces markdownText) /\
  (forall pieces,
     Separated #"---" pieces markdownText ->
     JS.join #"---" pieces = markdownText /\
     slidesContent markdownText = filter JS.truthy (map JS.trim pieces)) /\
  Forall (fun f => f <> [] /\ Trimmed f) (slidesContent markdownText) /\
  (Blank markdownText -> slidesContent markdownText = []).
Proof.
  assert (Hsep : #"---" <> []) by discriminate.
  split; [apply separated_exists, Hsep|].
  split; [|split; [apply slidesContent_fragments|apply slidesContent_blank]].
  intros pieces H. split; [now apply separated_join|].
  unfold slidesContent. now rewrite (split_separated _ Hsep _ _ H).
Qed.

Lemma segment_separated_pieces_witness :
  slidesContent #" a ------b  --- " = [#"a"; #"b"] /\
  slidesContent #"--- ---" = [].
Proof.
  split.
  - destruct (segment_separated_pieces #" a ------b  --- ") as (_ & H & _).
    destruct (H [#" a "; []; #"b  "; #" "]) as [_ ->]; [|reflexivity].
    apply (separated_cons #"---" #" a " [[]; #"b  "; #" "] #"---b  --- ");
      [reflexivity|].
    apply (separated_cons #"---" [] [#"b  "; #" "] #"b  --- ");
      [reflexivity|].
    apply (separated_cons #"---" #"b  " [#" "] #" "); [reflexivity|].
    apply separated_last. reflexivity.
  - destruct (segment_separated_pieces #"--- ---") as (_ & _ & _ & H).
    apply H.
    apply (blank_delimiter #" ---").
    apply (blank_space 32 #"---"); [reflexivity|].
    apply (blank_delimiter []). apply blank_empty.
Defined.

(* ================================================================== *)
(** * Properties of the request builder *)
(* ================================================================== *)

Section Builder.

Variable parse : JS.str -> list Token.
Variable now : nat -> Z.

Lemma buildSlide_run slideMd requests slideCount w :
  buildSlide parse now slideMd (requests, slideCount) w =
  (Ok (requests ++
       slideGroup (now (clockReads w)) (now (S (clockReads w)))
                  (now (S (S (clockReads w)))) slideCount
                  (scanTokens (parse slideMd)),
       (slideCount + 1)%N),
   tick (tick (tick w))).
Proof.
  unfold buildSlide, bind, dateNow, ret, slideGroup. simpl.
  repeat rewrite <- app_assoc. reflexivity.
Qed.

Lemma forOf_buildSlide fragments : forall requests slideCount w,
  exists w',
    forOf (buildSlide parse now) fragments (requests, slideCount) w =
    (Ok (requests ++
         batchFrom parse now fragments slideCount (clockReads w),
         (slideCount + N.of_nat (List.length fragments))%N), w') /\
    credentials w' = credentials w /\ trace w' = trace w /\
    console w' = console w.
Proof.
  induction fragments as [|slideMd fragments IH];
    intros requests slideCount w.
  - exists w. simpl. unfold ret.
    now rewrite app_nil_r, N.add_0_r.
  - cbn [forOf]. unfold bind at 1. rewrite buildSlide_run.
    destruct (IH (requests ++
                  slideGroup (now (clockReads w)) (now (S (clockReads w)))
                    (now (S (S (clockReads w)))) slideCount
                    (scanTokens (parse slideMd)))
                 (slideCount + 1)%N (tick (tick (tick w))))
      as (w' & -> & Hc & Ht & Hl).
    exists w'. repeat split; try assumption.
    cbn [batchFrom]. rewrite <- app_assoc. do 3 f_equal. simpl List.length.
    lia.
Qed.

End Builder.

(** C1: for every fragment, whatever its tokens, [build] appends to the
    batch exactly seven requests in the fixed order: createSlide (layout
    TITLE_AND_BODY, insertion index = index of the fragment), createShape
    of the title box (at (50, 50) pt, 600 by 50 pt), insertText into the
    title box, updateTextStyle on it (bold, 24 pt, the whole text),
    createShape of the body box (at (50, 120) pt, 600 by 350 pt),
    insertText into it of the body lines joined by a blank line,
    updateTextStyle on it (14 pt, the whole text); it never throws, so
    never fewer and never a part of the group. *)
Theorem build_emits_seven_requests
    (parse : JS.str -> list Token) (now : nat -> Z)
    (slideMd : JS.str) (requests : list Request) (slideCount : N)
    (w : World) :
  let s := scanTokens (parse slideMd) in
  let slide := slideId (now (clockReads w)) slideCount in
  let titleBox := titleShapeId (now (S (clockReads w))) slideCount in
  let bodyBox := bodyShapeId (now (S (S (clockReads w)))) slideCount in
  let PT := #"PT" in
  let box x y wd ht :=
    {| pageObjectId := slide;
       transform := {| scaleX := 1; scaleY := 1;
                       translateX := x; translateY := y;
                       transformUnit := PT |};
       size := {| width := {| magnitude := wd; unit := PT |};
                  height := {| magnitude := ht; unit := PT |} |} |} in
  buildSlide parse now slideMd (requests, slideCount) w =
  (Ok (requests ++
       [ createSlide slide slideCount #"TITLE_AND_BODY";
         createShape titleBox #"TEXT_BOX" (box 50 50 600 50)%Z;
         insertText titleBox (titleText (slideTitle s) slideCount);
         updateTextStyle titleBox #"ALL"
           {| fontSize := {| magnitude := 24; unit := PT |};
              bold := Some true |} #"fontSize,bold";
         createShape bodyBox #"TEXT_BOX" (box 50 120 600 350)%Z;
         insertText bodyBox (JS.join [10; 10]%N (slideBodyElements s));
         updateTextStyle bodyBox #"ALL"
           {| fontSize := {| magnitude := 14; unit := PT |};
              bold := None |} #"fontSize" ],
       (slideCount + 1)%N),
   tick (tick (tick w))).
Proof.
  intros. apply buildSlide_run.
Qed.

(** ** Title and body of a scanned fragment *)

Lemma scanTokens_body tokens :
  slideBodyElements (scanTokens tokens) = bodyTexts tokens.
Proof. rewrite scanTokens_scanList. apply scanList_body. Qed.

Lemma scanTokens_title tokens :
  slideTitle (scanTokens tokens) = last (headingTexts tokens) [].
Proof. rewrite scanTokens_scanList. apply scanList_title. Qed.

Lemma bodyTexts_cons t next rest :
  bodyTexts (t :: next :: rest) =
  bodyLineOf t next ++ bodyTexts (next :: rest).
Proof.
  unfold bodyLineOf.
  change (bodyTexts (t :: next :: rest)) with
    (if hasType next "inline" then
       if hasType t "list_item_open"
       then (bullet ++ content next) :: bodyTexts (next :: rest)
       else if hasType t "paragraph_open"
       then content next :: bodyTexts (next :: rest)
       else bodyTexts (next :: rest)
     else bodyTexts (next :: rest)).
  now destruct (hasType next "inline"), (hasType t "list_item_open"),
    (hasType t "paragraph_open").
Qed.

Lemma headingTexts_no_heading tokens :
  Forall (fun t => hasType t "heading_open" = false) tokens ->
  headingTexts tokens = [].
Proof.
  induction 1 as [|t rest Ht _ IH]; [reflexivity|].
  destruct rest as [|next rest]; [reflexivity|].
  change (headingTexts (t :: next :: rest)) with
    (if hasType t "heading_open" && hasType next "inline"
     then content next :: headingTexts (next :: rest)
     else headingTexts (next :: rest)).
  now rewrite Ht.
Qed.

Lemma titleText_nonempty slideTitle slideCount :
  titleText slideTitle slideCount <> [].
Proof.
  unfold titleText. destruct slideTitle; simpl; discriminate.
Qed.

(** C2 (the code does otherwise): in the example document of the
    specification the second fragment is the list of the items [a] and
    [b]; on the tokens that markdown-it gives for it, a [paragraph_open]
    stands between every [list_item_open] and its inline token, so the
    scan takes the text as that of a paragraph: the body lines are [a]
    and [b], without the bullet. *)
Theorem list_items_lose_their_bullet :
  slidesContent helloDocument =
    [ #"# Hello" ++ nl ++ nl ++ #"World"; #"- a" ++ nl ++ #"- b" ] /\
  slideBodyElements (scanTokens listItemsAB) = [ #"a"; #"b" ] /\
  slideBodyElements (scanTokens listItemsAB) <>
    [ bullet ++ #"a"; bullet ++ #"b" ].
Proof.
  repeat split; try reflexivity. discriminate.
Qed.

(** C4, as the claim has it, fails: the first block of the fragment of
    the two headings [A] and [B] is a heading with the text [A], and the
    title of its slide is [B]. *)
Lemma first_heading_overwritten :
  FirstBlockHeading headingsAB #"A" /\
  slideTitle (scanTokens headingsAB) = #"B" /\
  slideTitle (scanTokens headingsAB) <> #"A".
Proof.
  split; [|split; [reflexivity|discriminate]].
  exists (tok "heading_open"), (inline "A"),
    [ tok "heading_close";
      tok "heading_open"; inline "B";
      tok "heading_close" ].
  repeat split.
Qed.

(** C4, amended: for every fragment whose first block is a heading with
    the inline text [T] and which has no later heading with an inline
    text, the title of the slide is [T] exactly, and the inline token of
    the heading is consumed with the heading-open token: the body lines
    are those of the tokens after it.  For every fragment without a
    heading, the text inserted into the title shape, the third request
    of its group, is ["Slide " + (index + 1)]. *)
Theorem title_of_first_heading
    (parse : JS.str -> list Token) (now : nat -> Z) (slideMd : JS.str) :
  (forall T,
     FirstBlockHeading (parse slideMd) T ->
     headingTexts (skipn 2 (parse slideMd)) = [] ->
     slideTitle (scanTokens (parse slideMd)) = T /\
     slideBodyElements (scanTokens (parse slideMd)) =
       bodyTexts (skipn 2 (parse slideMd))) /\
  (Forall (fun t => hasType t "heading_open" = false) (parse slideMd) ->
   forall requests slideCount w,
   exists before after,
     fst (buildSlide parse now slideMd (requests, slideCount) w) =
       Ok (requests ++ before ++
           insertText (titleShapeId (now (S (clockReads w))) slideCount)
                      (#"Slide " ++ JS.ofN (slideCount + 1)) :: after,
           (slideCount + 1)%N) /\
     List.length before = 2 /\ List.length after = 4).
Proof.
  split.
  - intros T (t & next & rest & E & Ht & Hn & <-) Hrest.
    rewrite E in *. cbn [skipn] in *. split.
    + rewrite scanTokens_title.
      change (headingTexts (t :: next :: rest)) with
        (if hasType t "heading_open" && hasType next "inline"
         then content next :: headingTexts (next :: rest)
         else headingTexts (next :: rest)).
      rewrite Ht, Hn, (headingTexts_inline _ _ Hn), Hrest. reflexivity.
    + rewrite scanTokens_body, bodyTexts_cons, (bodyTexts_inline _ _ Hn).
      unfold bodyLineOf.
      now rewrite Hn, (heading_not_list_item _ Ht),
        (heading_not_paragraph _ Ht).
  - intros Hno requests slideCount w.
    rewrite buildSlide_run. unfold slideGroup.
    rewrite scanTokens_title, (headingTexts_no_heading _ Hno).
    eexists [_; _], [_; _; _; _]. repeat split.
Qed.

Lemma title_of_first_heading_witness :
  slideTitle (scanTokens [ tok "heading_open"; inline "A";
                           tok "heading_close";
                           tok "paragraph_open"; inline "x";
                           tok "paragraph_close" ]) = #"A" /\
  exists before after,
    fst (buildSlide (fun _ => listItemsAB) (fun _ => 0%Z) #"- a"
                    ([], 4%N) {| credentials := noCredentials;
                                 clockReads := 0; trace := [];
                                 console := [] |}) =
      Ok ([] ++ before ++
          insertText (titleShapeId 0 4) (#"Slide " ++ JS.ofN (4 + 1))
          :: after, (4 + 1)%N) /\
    List.length before = 2 /\ List.length after = 4.
Proof.
  split.
  - apply (title_of_first_heading
             (fun _ => [ tok "heading_open"; inline "A";
                         tok "heading_close";
                         tok "paragraph_open"; inline "x";
                         tok "paragraph_close" ])
             (fun _ => 0%Z) []).
    + exists (tok "heading_open"), (inline "A"),
        [ tok "heading_close";
          tok "paragraph_open"; inline "x";
          tok "paragraph_close" ].
      repeat split.
    + reflexivity.
  - apply (title_of_first_heading (fun _ => listItemsAB) (fun _ => 0%Z) #"- a").
    repeat constructor.
Defined.

(* ================================================================== *)
(** * Object identifiers *)
(* ================================================================== *)

(** ** Decimal numerals *)

Lemma ofUint_digits d : Forall (fun c => JS.isDigit c = true) (JS.ofUint d).
Proof.
  induction d; simpl; constructor; auto.
Qed.

Lemma ofUint_inj d : forall d', JS.ofUint d = JS.ofUint d' -> d = d'.
Proof.
  induction d as [|d IH|d IH|d IH|d IH|d IH|d IH|d IH|d IH|d IH|d IH];
    intros [|d'|d'|d'|d'|d'|d'|d'|d'|d'|d'] H;
    try reflexivity; try discriminate H;
    injection H as H; f_equal; auto.
Qed.

Lemma ofN_inj n n' : JS.ofN n = JS.ofN n' -> n = n'.
Proof.
  intro H. apply DecimalN.Unsigned.to_uint_inj, ofUint_inj, H.
Qed.

(** A run of digits that ends at a code unit that is no digit is found
    in one way only. *)
Lemma digits_until d : forall d' c c' x x',
  Forall (fun a => JS.isDigit a = true) d ->
  Forall (fun a => JS.isDigit a = true) d' ->
  JS.isDigit c = false -> JS.isDigit c' = false ->
  d ++ c :: x = d' ++ c' :: x' -> d = d'.
Proof.
  induction d as [|a d IH]; intros d' c c' x x' Hd Hd' Hc Hc' E.
  - destruct d' as [|a' d']; [reflexivity|].
    injection E as -> _. inversion Hd'; congruence.
  - destruct d' as [|a' d'].
    + injection E as <- _. inversion Hd; congruence.
    + injection E as -> E. f_equal.
      inversion Hd; inversion Hd'; subst.
      apply (IH d' c c' x x'); assumption.
Qed.

(** The index after the last underscore tells identifiers apart. *)
Lemma index_suffix_inj a b k k' :
  a ++ 95%N :: JS.ofN k = b ++ 95%N :: JS.ofN k' -> k = k'.
Proof.
  intro E. apply (f_equal (@rev N)) in E.
  rewrite !rev_app_distr in E. cbn [rev] in E. rewrite <- !app_assoc in E.
  cbn [app] in E.
  apply ofN_inj. rewrite <- (rev_involutive (JS.ofN k)).
  rewrite <- (rev_involutive (JS.ofN k')). f_equal.
  eapply digits_until; [| | | |exact E];
    try reflexivity; apply Forall_rev, ofUint_digits.
Qed.

Lemma slideId_index t k : exists a, slideId t k = a ++ 95%N :: JS.ofN k.
Proof.
  exists (#"slide_" ++ JS.ofZ t). unfold slideId.
  now rewrite <- app_assoc.
Qed.

Lemma titleShapeId_index t k :
  exists a, titleShapeId t k = a ++ 95%N :: JS.ofN k.
Proof.
  exists (#"title_shape_" ++ JS.ofZ t). unfold titleShapeId.
  now rewrite <- app_assoc.
Qed.

Lemma bodyShapeId_index t k :
  exists a, bodyShapeId t k = a ++ 95%N :: JS.ofN k.
Proof.
  exists (#"body_shape_" ++ JS.ofZ t). unfold bodyShapeId.
  now rewrite <- app_assoc.
Qed.

Lemma objectIds_app r1 r2 :
  objectIds (r1 ++ r2) = objectIds r1 ++ objectIds r2.
Proof.
  induction r1 as [|r r1 IH]; [reflexivity|].
  destruct r; simpl; now rewrite IH.
Qed.

Section Identifiers.

Variable parse : JS.str -> list Token.
Variable now : nat -> Z.

(** Every identifier of a batch ends in the index of its slide. *)
Lemma objectIds_batchFrom fragments : forall slideCount reads id,
  In id (objectIds (batchFrom parse now fragments slideCount reads)) ->
  exists a k, (slideCount <= k)%N /\ id = a ++ 95%N :: JS.ofN k.
Proof.
  induction fragments as [|slideMd fragments IH];
    intros slideCount reads id H; [destruct H|].
  cbn [batchFrom] in H. rewrite objectIds_app in H.
  apply in_app_or in H as [H|H].
  - simpl in H. destruct H as [<-|[<-|[<-|[]]]].
    + destruct (slideId_index (now reads) slideCount) as [a ->].
      exists a, slideCount. split; [lia|reflexivity].
    + destruct (titleShapeId_index (now (S reads)) slideCount) as [a ->].
      exists a, slideCount. split; [lia|reflexivity].
    + destruct (bodyShapeId_index (now (S (S reads))) slideCount)
        as [a ->].
      exists a, slideCount. split; [lia|reflexivity].
  - destruct (IH _ _ _ H) as (a & k & Hk & ->).
    exists a, k. split; [lia|reflexivity].
Qed.

End Identifiers.

Section Distinct.

Variable parse : JS.str -> list Token.
Variable now : nat -> Z.

Lemma objectIds_slideGroup t0 t1 t2 slideCount s :
  objectIds (slideGroup t0 t1 t2 slideCount s) =
  [ slideId t0 slideCount; titleShapeId t1 slideCount;
    bodyShapeId t2 slideCount ].
Proof. reflexivity. Qed.

(** An identifier with the index [k] is not among those of the slides
    after [k]. *)
Lemma not_in_later_slides fragments reads a k :
  ~ In (a ++ 95%N :: JS.ofN k)
       (objectIds (batchFrom parse now fragments (k + 1) reads)).
Proof.
  intro H.
  apply objectIds_batchFrom in H as (b & k' & Hk & E).
  apply index_suffix_inj in E. lia.
Qed.

Lemma batchFrom_NoDup fragments : forall slideCount reads,
  NoDup (objectIds (batchFrom parse now fragments slideCount reads)).
Proof.
  induction fragments as [|slideMd fragments IH]; intros slideCount reads;
    [constructor|].
  cbn [batchFrom]. rewrite objectIds_app, objectIds_slideGroup.
  set (rest := objectIds (batchFrom parse now fragments (slideCount + 1)
                                    (S (S (S reads))))).
  assert (Hrest : forall a, ~ In (a ++ 95%N :: JS.ofN slideCount) rest)
    by (intro a; apply not_in_later_slides).
  destruct (slideId_index (now reads) slideCount) as [a0 E0].
  destruct (titleShapeId_index (now (S reads)) slideCount) as [a1 E1].
  destruct (bodyShapeId_index (now (S (S reads))) slideCount) as [a2 E2].
  cbn [app]. repeat constructor.
  - intros [H|[H|H]]; [discriminate H|discriminate H|].
    rewrite E0 in H. exact (Hrest _ H).
  - intros [H|H]; [discriminate H|].
    rewrite E1 in H. exact (Hrest _ H).
  - intro H. rewrite E2 in H. exact (Hrest _ H).
  - apply IH.
Qed.

Lemma batchFrom_objectIds_length fragments : forall slideCount reads,
  List.length
    (objectIds (batchFrom parse now fragments slideCount reads)) =
  3 * List.length fragments.
Proof.
  induction fragments as [|slideMd fragments IH]; intros k r;
    [reflexivity|].
  cbn [batchFrom]. rewrite objectIds_app, length_app, IH. simpl. lia.
Qed.

End Distinct.

(** C5: the identifiers of the objects that one batch creates (for every
    fragment the slide, the title shape and the body shape) are pairwise
    distinct, whatever the clock reads at each of its readings, and so
    also when it reads the same at all of them: the name of the kind of
    object and the index of the slide tell them apart. *)
Theorem batch_identifiers_distinct
    (parse : JS.str -> list Token) (now : nat -> Z)
    (fragments : list JS.str) (w : World) :
  exists requests w',
    forOf (buildSlide parse now) fragments ([], 0%N) w =
      (Ok (requests, N.of_nat (List.length fragments)), w') /\
    List.length (objectIds requests) = 3 * List.length fragments /\
    NoDup (objectIds requests).
Proof.
  destruct (forOf_buildSlide parse now fragments [] 0%N w)
    as (w' & E & _).
  exists (batchFrom parse now fragments 0 (clockReads w)), w'.
  split; [exact E|].
  split; [apply batchFrom_objectIds_length|apply batchFrom_NoDup].
Qed.

(* ================================================================== *)
(** * The title of a slide *)
(* ================================================================== *)

(** C9: for every fragment, the text inserted into the title shape (the
    third request of the group) is never the empty string: the title that
    the scan extracted is the text of the last heading, and when it is
    empty, be it that there is no heading or that the heading has no
    text, the text inserted is ["Slide " + (index + 1)]. *)
Theorem title_text_never_empty
    (parse : JS.str -> list Token) (now : nat -> Z)
    (slideMd : JS.str) (requests : list Request) (slideCount : N)
    (w : World) :
  exists before text after,
    fst (buildSlide parse now slideMd (requests, slideCount) w) =
      Ok (requests ++ before ++
          insertText (titleShapeId (now (S (clockReads w))) slideCount) text
          :: after, (slideCount + 1)%N) /\
    List.length before = 2 /\ List.length after = 4 /\
    text <> [] /\
    (last (headingTexts (parse slideMd)) [] = [] ->
     text = #"Slide " ++ JS.ofN (slideCount + 1)).
Proof.
  rewrite buildSlide_run. unfold slideGroup.
  eexists [_; _], _, [_; _; _; _].
  split; [reflexivity|]. repeat split.
  - apply titleText_nonempty.
  - intro H. now rewrite scanTokens_title, H.
Qed.

Lemma title_text_never_empty_witness :
  exists before text after,
    fst (buildSlide (fun _ => [tok "heading_open"; tok "inline";
                               tok "heading_close"])
                    (fun _ => 7%Z) #"#" ([], 0%N)
                    {| credentials := noCredentials; clockReads := 0;
                       trace := []; console := [] |}) =
      Ok ([] ++ before ++ insertText (titleShapeId 7 0) text :: after,
          (0 + 1)%N) /\
    List.length before = 2 /\ List.length after = 4 /\
    text <> [] /\ text = #"Slide 1".
Proof.
  destruct (title_text_never_empty
              (fun _ => [tok "heading_open"; tok "inline";
                         tok "heading_close"])
              (fun _ => 7%Z) #"#" [] 0%N
              {| credentials := noCredentials; clockReads := 0;
                 trace := []; console := [] |})
    as (before & text & after & E & Hb & Ha & Hne & Hfallback).
  exists before, text, after. repeat split; try assumption.
  apply Hfallback. reflexivity.
Defined.

Lemma retitle_head f t rest :
  exists rest', retitle f (t :: rest) = t :: rest'.
Proof.
  destruct rest as [|next rest]; simpl; [now exists []|].
  destruct (hasType t "heading_open" && hasType next "inline");
    eexists; reflexivity.
Qed.

(** The texts of the headings have no part in the body lines. *)
Lemma bodyTexts_retitle f tokens :
  bodyTexts (retitle f tokens) = bodyTexts tokens.
Proof.
  induction tokens as [|t|t next rest IH1 IH2] using token_list_ind2;
    try reflexivity.
  change (retitle f (t :: next :: rest)) with
    (if hasType t "heading_open" && hasType next "inline"
     then t :: {| type := type next; content := f (content next) |}
            :: retitle f rest
     else t :: retitle f (next :: rest)).
  rewrite (bodyTexts_cons t next rest).
  destruct (hasType t "heading_open") eqn:Ht;
    [destruct (hasType next "inline") eqn:Hn|]; cbn [andb].
  - rewrite bodyTexts_cons, !bodyTexts_inline, IH2 by assumption.
    unfold bodyLineOf.
    now rewrite (heading_not_list_item _ Ht), (heading_not_paragraph _ Ht),
      !Tauto.if_same.
  - destruct (retitle_head f next rest) as [rest' E].
    rewrite E, bodyTexts_cons, <- E, IH1. reflexivity.
  - destruct (retitle_head f next rest) as [rest' E].
    rewrite E, bodyTexts_cons, <- E, IH1. reflexivity.
Qed.

(** C10: for every fragment with more than one heading that has an
    inline text, the title of the slide is the text of the last of them:
    every heading overwrites the title, and the texts of the headings
    never come into the body lines, which are those of the paragraphs and
    list items only and stay what they are whatever the headings say. *)
Theorem last_heading_wins (tokens : list Token) :
  1 < List.length (headingTexts tokens) ->
  slideTitle (scanTokens tokens) = last (headingTexts tokens) [] /\
  slideBodyElements (scanTokens tokens) = bodyTexts tokens /\
  forall f,
    slideBodyElements (scanTokens (retitle f tokens)) =
    slideBodyElements (scanTokens tokens).
Proof.
  intros _. split; [apply scanTokens_title|].
  split; [apply scanTokens_body|].
  intro f. now rewrite !scanTokens_body, bodyTexts_retitle.
Qed.

Lemma last_heading_wins_witness :
  slideTitle (scanTokens headingsAB) = #"B" /\
  slideBodyElements (scanTokens headingsAB) = [].
Proof.
  destruct (last_heading_wins headingsAB) as (Ht & Hb & _).
  - simpl. lia.
  - rewrite Ht, Hb. split; reflexivity.
Defined.

(* ================================================================== *)
(** * The routes and the network *)
(* ================================================================== *)


(** C6, as the claim has it, fails: a [POST /convert] whose body no
    parser took, so that [req.body] is [undefined], arrives while no
    access token is present; the handler throws at line 84, before the
    guard, and the response is not the 401. *)
Lemma convert_without_body_is_no_401 :
  present (access_token (credentials initialWorld)) = false /\
  fst (convert (fun _ => []) (fun _ => 0%Z)
               (fun _ _ => inr #"id") (fun _ _ _ => inr tt)
               NoBody initialWorld) = Rejected destructureOfUndefined /\
  fst (convert (fun _ => []) (fun _ => 0%Z)
               (fun _ _ => inr #"id") (fun _ _ _ => inr tt)
               NoBody initialWorld) <> Send 401 msgLoginFirst.
Proof.
  split; [reflexivity|]. split; [reflexivity|discriminate].
Qed.

(** C6, amended: for every [POST /convert] that arrives while no access
    token is present (none at all, or an empty one), no call, neither
    [presentations.create] nor [batchUpdate], is sent out, and the state
    of the process is what it was; and when the body of the request was
    parsed, so that [req.body] is an object (with the text or without),
    the response has the status 401. *)
Theorem convert_without_credential
    (parse : JS.str -> list Token) (now : nat -> Z)
    (presentationsCreate : list Call -> JS.str -> Error + JS.str)
    (batchUpdate :
       list Call -> JS.str -> list Request -> Error + Datatypes.unit)
    (body : Body) (w : World) :
  present (access_token (credentials w)) = false ->
  let r := convert parse now presentationsCreate batchUpdate body w in
  snd r = w /\ trace (snd r) = trace w /\
  (body <> NoBody -> fst r = Send 401 msgLoginFirst).
Proof.
  intros H r. subst r. unfold convert.
  destruct body as [|markdownText]; [now repeat split|].
  rewrite H. cbn [negb fst snd]. repeat split.
Qed.

Lemma convert_without_credential_witness :
  let w := {| credentials := noCredentials; clockReads := 0;
              trace := []; console := [] |} in
  let r := convert (fun _ => []) (fun _ => 0%Z)
                   (fun _ _ => inr #"id") (fun _ _ _ => inr tt)
                   (Form (Some #"# Title")) w in
  fst r = Send 401 msgLoginFirst /\ snd r = w /\ trace (snd r) = [].
Proof.
  intros w r.
  destruct (convert_without_credential
              (fun _ => []) (fun _ => 0%Z)
              (fun _ _ => inr #"id") (fun _ _ _ => inr tt)
              (Form (Some #"# Title")) w) as (Hw & Ht & Hr).
  - reflexivity.
  - split; [apply Hr; discriminate|]. split; [exact Hw|exact Ht].
Defined.

(** C7: for every callback in which the exchange of the code throws, the
    route answers with the status 500 and the message of a failed
    authentication, and the credentials of the process are what they
    were: [setCredentials] is reached only when the exchange succeeds. *)
Theorem callback_exchange_throws
    (getToken : list Call -> option JS.str -> Error + Credentials)
    (authCode : option JS.str) (w : World) (error : Error) :
  getToken (trace w) authCode = inl error ->
  let r := authGoogleCallback getToken authCode w in
  fst r = Send 500 msgAuthFailed /\
  credentials (snd r) = credentials w /\
  trace (snd r) = trace w ++ [GetToken authCode].
Proof.
  intros H r. subst r. unfold authGoogleCallback, callOut.
  rewrite H. simpl. auto.
Qed.

Lemma callback_exchange_throws_witness :
  let old := {| access_token := Some #"old"; refresh_token := None |} in
  let w := {| credentials := old; clockReads := 0;
              trace := []; console := [] |} in
  let r := authGoogleCallback
             (fun _ _ => inl {| name := #"Error"; code := Some 400%Z;
                                message := #"invalid_grant" |})
             (Some #"code") w in
  fst r = Send 500 msgAuthFailed /\
  credentials (snd r) = old /\
  trace (snd r) = [] ++ [GetToken (Some #"code")].
Proof.
  intros old w r.
  apply (callback_exchange_throws
           (fun _ _ => inl {| name := #"Error"; code := Some 400%Z;
                              message := #"invalid_grant" |})
           (Some #"code") w
           {| name := #"Error"; code := Some 400%Z;
              message := #"invalid_grant" |}).
  reflexivity.
Defined.



(* ================================================================== *)
(** * More on the segmentation (line 93) *)
(* ================================================================== *)

Lemma startsWith_app_l n a b :
  JS.startsWith n a = true -> JS.startsWith n (a ++ b) = true.
Proof.
  intro H. apply startsWith_inv in H as [rest ->].
  rewrite <- app_assoc. apply startsWith_app.
Qed.

Lemma includes_app_l n a b :
  includes a n = true -> includes (a ++ b) n = true.
Proof.
  induction a as [|c a IH]; intro H.
  - simpl in H. rewrite orb_false_r in H.
    apply (startsWith_app_l n [] b) in H. simpl in H.
    destruct b; simpl; rewrite H; reflexivity.
  - cbn [includes] in H. cbn [app includes].
    apply orb_true_iff in H as [H|H].
    + apply (startsWith_app_l n (c :: a) b) in H. cbn [app] in H.
      now rewrite H.
    + rewrite (IH H). apply orb_true_r.
Qed.

Lemma includes_app_r n l t :
  includes t n = true -> includes (l ++ t) n = true.
Proof.
  intro H. induction l as [|c l IH]; [exact H|].
  cbn [app includes]. rewrite IH. apply orb_true_r.
Qed.

Lemma includes_inside n l t r :
  includes (l ++ t ++ r) n = false -> includes t n = false.
Proof.
  intro H. destruct (includes t n) eqn:E; [|reflexivity].
  now rewrite (includes_app_r n l _ (includes_app_l n t r E)) in H.
Qed.

Lemma separated_pieces_clean sep pieces s :
  Separated sep pieces s ->
  Forall (fun p => includes p sep = false) pieces.
Proof.
  induction 1 as [p H|p pieces rest H _ IH].
  - now repeat constructor.
  - constructor; [|exact IH].
    apply (includes_inside sep [] p (removelast sep)). exact H.
Qed.

Lemma trim_inside p :
  exists l r, p = l ++ JS.trim p ++ r.
Proof.
  destruct (trim_spec p) as (l & r & E & _). now exists l, r.
Qed.

Lemma slidesContent_no_delimiter (markdownText : JS.str) :
  Forall (fun f => includes f #"---" = false) (slidesContent markdownText).
Proof.
  assert (Hsep : #"---" <> []) by discriminate.
  destruct (separated_exists _ Hsep markdownText) as [pieces Hp].
  unfold slidesContent. rewrite (split_separated _ Hsep _ _ Hp).
  apply Forall_forall. intros f Hf.
  apply filter_In in Hf as [Hin _].
  apply in_map_iff in Hin as (p & <- & Hin).
  pose proof (separated_pieces_clean _ _ _ Hp) as Hclean.
  rewrite Forall_forall in Hclean. specialize (Hclean p Hin).
  destruct (trim_inside p) as (l & r & E).
  rewrite E in Hclean at 1. now apply includes_inside in Hclean.
Qed.

(** X1: no fragment contains the delimiter, whatever the document. *)
Theorem fragments_hold_no_delimiter (markdownText : JS.str) :
  Forall (fun f => includes f #"---" = false) (slidesContent markdownText).
Proof. apply slidesContent_no_delimiter. Qed.

Lemma scattered_prefix x fragments s :
  Scattered fragments s -> Scattered fragments (x ++ s).
Proof.
  intros [s'|before f fragments' rest H]; [constructor|].
  rewrite app_assoc. now constructor.
Qed.

Lemma separated_scattered sep pieces s :
  Separated sep pieces s ->
  Scattered (filter JS.truthy (map JS.trim pieces)) s.
Proof.
  induction 1 as [p H|p pieces rest H _ IH]; cbn [map filter].
  - destruct (JS.truthy (JS.trim p)); [|constructor].
    destruct (trim_inside p) as (l & r & E). rewrite E at 2.
    repeat constructor.
  - destruct (JS.truthy (JS.trim p)).
    + destruct (trim_inside p) as (l & r & E). rewrite E at 2.
      rewrite <- !app_assoc. constructor.
      rewrite app_assoc. now apply scattered_prefix.
    + rewrite app_assoc. now apply scattered_prefix.
Qed.

(** X2: the fragments lie in the document one after the other, in the
    order of the result and without overlap: the segmentation invents
    no text and moves none. *)
Theorem fragments_lie_in_document (markdownText : JS.str) :
  Scattered (slidesContent markdownText) markdownText.
Proof.
  assert (Hsep : #"---" <> []) by discriminate.
  destruct (separated_exists _ Hsep markdownText) as [pieces Hp].
  unfold slidesContent. rewrite (split_separated _ Hsep _ _ Hp).
  now apply separated_scattered with (sep := #"---").
Qed.

(** ** Segmenting a document that was put together from fragments *)

Lemma dropWhile_app_all p l x :
  Forall (fun c => p c = true) l ->
  JS.dropWhile p (l ++ x) = JS.dropWhile p x.
Proof.
  induction 1 as [|c l Hc _ IH]; [reflexivity|].
  cbn [app JS.dropWhile]. now rewrite Hc.
Qed.

Lemma trim_padded l f r :
  Whitespace l -> Whitespace r -> f <> [] -> Trimmed f ->
  JS.trim (l ++ f ++ r) = f.
Proof.
  intros Hl Hr Hne [Hfirst Hlast].
  unfold JS.trim, JS.trimStart, JS.trimEnd.
  rewrite (dropWhile_app_all _ l (f ++ r) Hl).
  destruct f as [|c f'] eqn:Ef; [congruence|].
  cbn [app JS.dropWhile]. rewrite (Hfirst c f' eq_refl).
  change (c :: f' ++ r) with ((c :: f') ++ r). rewrite <- Ef in *.
  rewrite rev_app_distr.
  rewrite (dropWhile_app_all _ (rev r) (rev f) (Forall_rev Hr)).
  destruct (exists_last Hne) as (g & d & Eg).
  rewrite Eg, rev_app_distr. cbn [rev app JS.dropWhile].
  rewrite (Hlast d g) by (now rewrite <- Eg).
  cbn [rev]. now rewrite rev_involutive.
Qed.

Lemma lit_delimiter : #"---" = [45; 45; 45]%N.
Proof. reflexivity. Qed.

Lemma startsWith_delimiter_space c s :
  JS.isWhiteSpace c = true -> JS.startsWith #"---" (c :: s) = false.
Proof.
  intro H. rewrite lit_delimiter. cbn [JS.startsWith].
  now rewrite (whitespace_not_hyphen c H).
Qed.

Lemma includes_after_space pre x :
  Whitespace pre -> includes (pre ++ x) #"---" = includes x #"---".
Proof.
  induction 1 as [|c pre Hc _ IH]; [reflexivity|].
  cbn [app includes]. now rewrite (startsWith_delimiter_space c _ Hc).
Qed.

(** Hyphens after whitespace do not complete a delimiter that began
    before it. *)
Lemma startsWith_delimiter_broken a c x :
  JS.isWhiteSpace c = true ->
  JS.startsWith #"---" a = false ->
  JS.startsWith #"---" (a ++ c :: x) = false.
Proof.
  intros Hc. apply whitespace_not_hyphen in Hc.
  rewrite lit_delimiter.
  destruct a as [|a1 [|a2 [|a3 a]]]; cbn [app JS.startsWith]; intro H;
    rewrite ?Hc, ?andb_false_r; try reflexivity.
  exact H.
Qed.

Lemma includes_before_one_space f c y :
  JS.isWhiteSpace c = true ->
  includes f #"---" = false ->
  includes (c :: y) #"---" = false ->
  includes (f ++ c :: y) #"---" = false.
Proof.
  intros Hc Hf Hy. induction f as [|a f IH]; [exact Hy|].
  cbn [includes] in Hf. apply orb_false_iff in Hf as [H1 H2].
  cbn [app includes]. rewrite (IH H2), orb_false_r.
  apply (startsWith_delimiter_broken (a :: f) c y Hc H1).
Qed.

Lemma includes_before_space f lpad x :
  Whitespace lpad -> lpad <> [] ->
  includes f #"---" = false ->
  includes (lpad ++ x) #"---" = false ->
  includes (f ++ lpad ++ x) #"---" = false.
Proof.
  intros Hl Hne Hf Hx. destruct Hl as [|c lpad Hc Hl]; [congruence|].
  now apply includes_before_one_space.
Qed.

Lemma whitespace_blank s : Whitespace s -> Blank s.
Proof.
  induction 1 as [|c s Hc _ IH]; now constructor.
Qed.

Section Joined.

Variables lpad rpad : JS.str.
Hypothesis lpad_space : Whitespace lpad.
Hypothesis lpad_nonempty : lpad <> [].
Hypothesis rpad_space : Whitespace rpad.

(** The line between two fragments: the delimiter with whitespace
    around it, some of it before. *)
Let slideBreak : JS.str := lpad ++ #"---" ++ rpad.

Lemma slidesContent_joined fragments : forall pre,
  Whitespace pre ->
  Forall (fun f => f <> [] /\ Trimmed f /\ includes f #"---" = false)
         fragments ->
  slidesContent (pre ++ JS.join slideBreak fragments) = fragments.
Proof.
  induction fragments as [|f fragments IH]; intros pre Hpre Hall.
  - cbn [JS.join]. rewrite app_nil_r.
    apply slidesContent_blank, whitespace_blank, Hpre.
  - inversion Hall as [|? ? (Hne & Htrim & Hclean) Hrest]; subst.
    destruct fragments as [|f2 fragments].
    + cbn [JS.join]. unfold slidesContent.
      change (JS.split #"---" (pre ++ f))
        with (JS.splitFrom #"---" 0 [] (pre ++ f)).
      rewrite splitFrom_no_sep
        by (discriminate || now rewrite includes_after_space).
      cbn [rev app map filter].
      assert (E : JS.trim (pre ++ f) = f).
      { rewrite <- (app_nil_r f) at 1.
        apply (trim_padded pre f [] Hpre (Forall_nil _) Hne Htrim). }
      rewrite E. now destruct f.
    + change (JS.join slideBreak (f :: f2 :: fragments))
        with (f ++ slideBreak ++ JS.join slideBreak (f2 :: fragments)).
      set (rest := JS.join slideBreak (f2 :: fragments)) in *.
      unfold slideBreak at 1.
      replace (pre ++ f ++ (lpad ++ #"---" ++ rpad) ++ rest)
        with ((pre ++ f ++ lpad) ++ #"---" ++ (rpad ++ rest))
        by (now rewrite <- !app_assoc).
      unfold slidesContent.
      change (JS.split #"---" ?x) with (JS.splitFrom #"---" 0 [] x).
      rewrite splitFrom_before_sep; [|discriminate|].
      * rewrite splitFrom_at_sep by discriminate.
        rewrite app_nil_r, rev_involutive. cbn [map filter].
        rewrite (trim_padded pre f lpad Hpre lpad_space Hne Htrim).
        replace (JS.truthy f) with true by (now destruct f).
        f_equal. apply (IH rpad rpad_space Hrest).
      * rewrite <- !app_assoc, includes_after_space by assumption.
        apply includes_before_space; try assumption.
        rewrite includes_after_space by assumption. reflexivity.
Qed.

End Joined.

(** X3: fragments that are non-empty, have no whitespace at either end
    and hold no delimiter, joined by the delimiter with whitespace around
    it (some of it before the delimiter, such as the end of the line),
    are what the segmentation of the joined document gives back. *)
Theorem segment_of_joined_fragments (lpad rpad : JS.str)
    (fragments : list JS.str) :
  Whitespace lpad -> lpad <> [] -> Whitespace rpad ->
  Forall (fun f => f <> [] /\ Trimmed f /\ includes f #"---" = false)
         fragments ->
  slidesContent (JS.join (lpad ++ #"---" ++ rpad) fragments) = fragments.
Proof.
  intros Hl Hne Hr Hall.
  apply (slidesContent_joined lpad rpad Hl Hne Hr fragments [] (Forall_nil _)
           Hall).
Qed.

Lemma trimmedb_Trimmed s : trimmedb s = true -> Trimmed s.
Proof.
  unfold trimmedb. intro H. apply andb_true_iff in H as [H1 H2]. split.
  - intros c r ->. simpl in H1. now destruct (JS.isWhiteSpace c).
  - intros c r ->. rewrite rev_app_distr in H2. simpl in H2.
    now destruct (JS.isWhiteSpace c).
Qed.

Lemma segment_of_joined_fragments_witness :
  slidesContent (JS.join (nl ++ nl ++ #"---" ++ nl)
                   [ #"# One"; #"two - three"; #"- a" ++ nl ++ #"- b" ]) =
  [ #"# One"; #"two - three"; #"- a" ++ nl ++ #"- b" ].
Proof.
  apply (segment_of_joined_fragments (nl ++ nl) nl).
  - repeat constructor.
  - discriminate.
  - repeat constructor.
  - repeat constructor; try discriminate; now apply trimmedb_Trimmed.
Defined.

(** X4: segmenting is stable: the fragments of a document, joined again
    by delimiter lines, are segmented into the same fragments. *)
Theorem segment_is_stable (lpad rpad markdownText : JS.str) :
  Whitespace lpad -> lpad <> [] -> Whitespace rpad ->
  slidesContent
    (JS.join (lpad ++ #"---" ++ rpad) (slidesContent markdownText)) =
  slidesContent markdownText.
Proof.
  intros Hl Hne Hr.
  apply (slidesContent_joined lpad rpad Hl Hne Hr _ [] (Forall_nil _)).
  pose proof (slidesContent_fragments markdownText) as H1.
  pose proof (slidesContent_no_delimiter markdownText) as H2.
  rewrite Forall_forall in *. intros f Hf.
  destruct (H1 f Hf). specialize (H2 f Hf). auto.
Qed.

Lemma segment_is_stable_witness :
  slidesContent
    (JS.join (nl ++ #"---" ++ nl) (slidesContent #" a ------b  --- ")) =
  slidesContent #" a ------b  --- ".
Proof.
  apply (segment_is_stable nl nl #" a ------b  --- ").
  - repeat constructor.
  - discriminate.
  - repeat constructor.
Defined.

(* ================================================================== *)
(** * More on the token scan (lines 114-144) *)
(* ================================================================== *)

(** X5: the loop by index, with its skipping of the inline token, ends
    after at most as many passes as tokens are left, and gives from any
    index and any values of the loop variables what one pass over the
    rest of the token list by pattern matching gives. *)
Theorem scan_is_one_pass (fuel : nat) (tokens : list Token) (i : nat)
    (s : Slide) :
  List.length tokens - i <= fuel ->
  scanLoop fuel tokens i s = scanList (skipn i tokens) s.
Proof. apply scanLoop_scanList. Qed.

Lemma scan_is_one_pass_witness :
  scanLoop 9 headingsAB 3 emptySlide =
  scanList [ tok "heading_open"; inline "B"; tok "heading_close" ]
           emptySlide.
Proof.
  apply (scan_is_one_pass 9 headingsAB 3 emptySlide). simpl. lia.
Defined.

Lemma paragraphTexts_cons t next rest :
  paragraphTexts (t :: next :: rest) =
  (if hasType t "paragraph_open" && hasType next "inline"
   then [content next] else []) ++ paragraphTexts (next :: rest).
Proof.
  change (paragraphTexts (t :: next :: rest)) with
    (if hasType t "paragraph_open" && hasType next "inline"
     then content next :: paragraphTexts (next :: rest)
     else paragraphTexts (next :: rest)).
  now destruct (hasType t "paragraph_open" && hasType next "inline").
Qed.

Lemma bodyTexts_wrapped tokens :
  listItemsWrapped tokens = true -> bodyTexts tokens = paragraphTexts tokens.
Proof.
  induction tokens as [|t rest IH]; [reflexivity|].
  destruct rest as [|next rest]; [reflexivity|]. intro H.
  change (listItemsWrapped (t :: next :: rest)) with
    (negb (hasType t "list_item_open" && hasType next "inline")
     && listItemsWrapped (next :: rest)) in H.
  apply andb_true_iff in H as [Ht Hrest].
  rewrite bodyTexts_cons, paragraphTexts_cons, (IH Hrest).
  f_equal. unfold bodyLineOf.
  destruct (hasType next "inline"), (hasType t "list_item_open"),
    (hasType t "paragraph_open"); try reflexivity; discriminate.
Qed.

(** X6: when no [list_item_open] is directly followed by an inline
    token, as in every stream where the text of a list item is wrapped
    in a paragraph, the body lines are the texts of the paragraphs and
    nothing else: no line gets the bullet of the code. *)
Theorem wrapped_list_items_get_no_bullet (tokens : list Token) :
  listItemsWrapped tokens = true ->
  slideBodyElements (scanTokens tokens) = paragraphTexts tokens.
Proof.
  intro H. rewrite scanTokens_body. now apply bodyTexts_wrapped.
Qed.

Lemma wrapped_list_items_get_no_bullet_witness :
  slideBodyElements (scanTokens listItemsAB) = paragraphTexts listItemsAB.
Proof.
  apply (wrapped_list_items_get_no_bullet listItemsAB). reflexivity.
Defined.

Lemma unrecognised_no_heading tokens :
  forallb unrecognised tokens = true ->
  Forall (fun t => hasType t "heading_open" = false) tokens.
Proof.
  intro H. rewrite forallb_forall in H. apply Forall_forall. intros t Ht.
  specialize (H t Ht). unfold unrecognised in H.
  now destruct (hasType t "heading_open").
Qed.

Lemma bodyTexts_unrecognised tokens :
  forallb unrecognised tokens = true -> bodyTexts tokens = [].
Proof.
  induction tokens as [|t rest IH]; [reflexivity|].
  destruct rest as [|next rest]; [reflexivity|]. intro H.
  cbn [forallb] in H. apply andb_true_iff in H as [Ht Hrest].
  rewrite bodyTexts_cons, (IH Hrest), app_nil_r.
  unfold bodyLineOf, unrecognised in *.
  destruct (hasType t "heading_open"), (hasType t "paragraph_open"),
    (hasType t "list_item_open"), (hasType next "inline");
    try reflexivity; discriminate.
Qed.

(** X7: a fragment whose tokens open neither a heading nor a paragraph
    nor a list item (such as a code fence, a rule or a table) gives a
    slide with nothing of its text: the scan leaves the title and the
    body empty, so the title shape gets ["Slide " + (index + 1)] and the
    body shape the empty string. *)
Theorem unrecognised_blocks_leave_slide_empty (tokens : list Token)
    (slideCount : N) :
  forallb unrecognised tokens = true ->
  scanTokens tokens = emptySlide /\
  titleText (slideTitle (scanTokens tokens)) slideCount =
    #"Slide " ++ JS.ofN (slideCount + 1) /\
  JS.join [10; 10]%N (slideBodyElements (scanTokens tokens)) = [].
Proof.
  intro H.
  assert (E : scanTokens tokens = emptySlide).
  { pose proof (scanTokens_title tokens) as Ht.
    pose proof (scanTokens_body tokens) as Hb.
    rewrite (headingTexts_no_heading _ (unrecognised_no_heading _ H)) in Ht.
    rewrite (bodyTexts_unrecognised _ H) in Hb.
    destruct (scanTokens tokens). simpl in *. now subst. }
  rewrite E. repeat split.
Qed.

Lemma unrecognised_blocks_leave_slide_empty_witness :
  scanTokens [ {| type := #"fence"; content := #"let x = 1;" |};
               tok "hr"; tok "table_open"; tok "th_open"; inline "head" ]
  = emptySlide.
Proof.
  apply (unrecognised_blocks_leave_slide_empty
           [ {| type := #"fence"; content := #"let x = 1;" |};
             tok "hr"; tok "table_open"; tok "th_open"; inline "head" ] 0).
  reflexivity.
Defined.

(* ================================================================== *)
(** * More on the batch (lines 107-255) *)
(* ================================================================== *)

Lemma insertionIndices_app r1 r2 :
  insertionIndices (r1 ++ r2) = insertionIndices r1 ++ insertionIndices r2.
Proof.
  induction r1 as [|r r1 IH]; [reflexivity|].
  destruct r; simpl; now rewrite IH.
Qed.

Lemma mem_head id ids : mem id (id :: ids) = true.
Proof.
  unfold mem. cbn [existsb]. now rewrite JS.eqb_refl.
Qed.

Section Batch.

Variable parse : JS.str -> list Token.
Variable now : nat -> Z.

Lemma batchFrom_length fragments : forall slideCount reads,
  List.length (batchFrom parse now fragments slideCount reads) =
  7 * List.length fragments.
Proof.
  induction fragments as [|slideMd fragments IH]; intros k r;
    [reflexivity|].
  cbn [batchFrom]. rewrite length_app, IH. simpl. lia.
Qed.

Lemma batchFrom_insertionIndices fragments : forall slideCount reads,
  insertionIndices (batchFrom parse now fragments slideCount reads) =
  map (fun i => (slideCount + N.of_nat i)%N)
      (seq 0 (List.length fragments)).
Proof.
  induction fragments as [|slideMd fragments IH]; intros k r;
    [reflexivity|].
  cbn [batchFrom]. rewrite insertionIndices_app, IH.
  cbn [List.length seq map]. rewrite <- seq_shift, map_map.
  cbn [slideGroup insertionIndices app]. f_equal; [lia|].
  apply map_ext. intro i. lia.
Qed.

Lemma batchFrom_refersBack fragments : forall slideCount reads slides shapes,
  refersBack slides shapes (batchFrom parse now fragments slideCount reads)
  = true.
Proof.
  induction fragments as [|slideMd fragments IH];
    intros k r slides shapes; [reflexivity|].
  cbn [batchFrom slideGroup app refersBack textBox pageObjectId].
  now rewrite !mem_head, IH.
Qed.

(** The loop, with the world that it leaves. *)
Lemma forOf_buildSlide_advance fragments : forall requests slideCount w,
  forOf (buildSlide parse now) fragments (requests, slideCount) w =
  (Ok (requests ++
       batchFrom parse now fragments slideCount (clockReads w),
       (slideCount + N.of_nat (List.length fragments))%N),
   advance (3 * List.length fragments) w).
Proof.
  induction fragments as [|slideMd fragments IH];
    intros requests slideCount w.
  - simpl. unfold ret, advance. rewrite app_nil_r, N.add_0_r.
    now destruct w.
  - cbn [forOf]. unfold bind at 1. rewrite buildSlide_run, IH.
    cbn [batchFrom]. rewrite <- app_assoc.
    replace (slideCount + 1 + N.of_nat (List.length fragments))%N
      with (slideCount + N.of_nat (List.length (slideMd :: fragments)))%N
      by (simpl List.length; lia).
    f_equal. unfold advance, tick.
    cbn [clockReads credentials trace console]. f_equal.
    simpl List.length. lia.
Qed.

End Batch.

(** X8: for [n] fragments the loop reads the clock three times for each
    of them and leaves a batch of [7 * n] requests, in which the slides
    are created with the insertion indices 0, 1, ..., [n - 1] in this
    order. *)
Theorem batch_has_seven_requests_per_slide
    (parse : JS.str -> list Token) (now : nat -> Z)
    (fragments : list JS.str) (w : World) :
  exists requests w',
    forOf (buildSlide parse now) fragments ([], 0%N) w =
      (Ok (requests, N.of_nat (List.length fragments)), w') /\
    List.length requests = 7 * List.length fragments /\
    insertionIndices requests =
      map N.of_nat (seq 0 (List.length fragments)) /\
    clockReads w' = 3 * List.length fragments + clockReads w.
Proof.
  eexists _, _. split; [apply forOf_buildSlide_advance|].
  cbn [app]. split; [apply batchFrom_length|].
  split; [|reflexivity]. apply batchFrom_insertionIndices.
Qed.

(** X9: in the batch of any list of fragments every request refers to
    an object that a request before it in the same batch creates: the
    two text boxes of a slide to the slide, every text and every style
    to its text box. *)
Theorem batch_refers_back
    (parse : JS.str -> list Token) (now : nat -> Z)
    (fragments : list JS.str) (w : World) :
  exists requests w',
    forOf (buildSlide parse now) fragments ([], 0%N) w =
      (Ok (requests, N.of_nat (List.length fragments)), w') /\
    refersBack [] [] requests = true.
Proof.
  eexists _, _. split; [apply forOf_buildSlide_advance|].
  apply batchFrom_refersBack.
Qed.

(* ================================================================== *)
(** * More on the routes *)
(* ================================================================== *)

Lemma convertFailed_catchResponse error w :
  convertFailed error w = (Ok (catchResponse error), consoleError error w).
Proof.
  unfold convertFailed, catchResponse.
  destruct (_ && _); [reflexivity|].
  now destruct (match code error with Some 401%Z => true | _ => false end).
Qed.

Section Convert.

Variable parse : JS.str -> list Token.
Variable now : nat -> Z.
Variable presentationsCreate : list Call -> JS.str -> Error + JS.str.
Variable batchUpdate :
  list Call -> JS.str -> list Request -> Error + Datatypes.unit.

(** All that [POST /convert] does with a text when there is an access
    token. *)
Lemma convert_run markdownText w :
  present (access_token (credentials w)) = true ->
  convert parse now presentationsCreate batchUpdate (Form (Some markdownText)) w =
  let fragments := slidesContent markdownText in
  let batch := batchFrom parse now fragments 0 (clockReads w) in
  let w1 := record (PresentationsCreate presentationTitle) w in
  match presentationsCreate (trace w) presentationTitle with
  | inl error => (catchResponse error, consoleError error w1)
  | inr presentationId =>
      let w2 := advance (3 * List.length fragments) w1 in
      match fragments with
      | [] => (RenderSuccess (presentationUrlOf presentationId), w2)
      | _ :: _ =>
          let w3 := record (BatchUpdate presentationId batch) w2 in
          match batchUpdate (trace w1) presentationId batch with
          | inl error => (catchResponse error, consoleError error w3)
          | inr _ => (RenderSuccess (presentationUrlOf presentationId), w3)
          end
      end
  end.
Proof.
  intro Hauth. unfold convert. rewrite Hauth. cbn [negb].
  unfold tryCatch, convertTry. unfold bind at 1. unfold callOut at 1.
  destruct (presentationsCreate (trace w) presentationTitle)
    as [error|presentationId]; cbv zeta.
  - now rewrite convertFailed_catchResponse.
  - unfold bind at 1. rewrite forOf_buildSlide_advance.
    cbn [fst app clockReads record].
    pose proof (batchFrom_length parse now (slidesContent markdownText)
                  0 (clockReads w)) as Hlen.
    destruct (slidesContent markdownText) as [|f fragments] eqn:Ef.
    + reflexivity.
    + replace (0 <? List.length
                      (batchFrom parse now (f :: fragments) 0 (clockReads w)))
        with true
        by (symmetry; apply Nat.ltb_lt; rewrite Hlen; simpl List.length; lia).
      unfold bind, callOut, ret. cbn [trace advance record].
      destruct (batchUpdate _ presentationId _) as [error|[]].
      * now rewrite convertFailed_catchResponse.
      * reflexivity.
Qed.

End Convert.

Lemma includes_spec s n :
  includes s n = true <-> exists a b, s = a ++ n ++ b.
Proof.
  split.
  - induction s as [|c s IH]; intro H.
    + simpl in H. rewrite orb_false_r in H.
      apply startsWith_inv in H as [rest ->]. now exists [], rest.
    + cbn [includes] in H. apply orb_true_iff in H as [H|H].
      * apply startsWith_inv in H as [rest ->]. now exists [], rest.
      * destruct (IH H) as (a & b & ->). now exists (c :: a), b.
  - intros (a & b & ->). apply includes_app_r.
    destruct (n ++ b) as [|c r] eqn:E.
    + destruct n; [reflexivity|discriminate].
    + cbn [includes]. rewrite <- E, startsWith_app. reflexivity.
Qed.

Lemma code_is_400 c :
  (match c with Some 400%Z => true | _ => false end) = true <->
  c = Some 400%Z.
Proof.
  split; [|now intros ->].
  destruct c as [[|p|p]|]; try discriminate.
  do 9 (try destruct p as [p|p|]; try discriminate). reflexivity.
Qed.

Lemma code_is_401 c :
  (match c with Some 401%Z => true | _ => false end) = true <->
  c = Some 401%Z.
Proof.
  split; [|now intros ->].
  destruct c as [[|p|p]|]; try discriminate.
  do 9 (try destruct p as [p|p|]; try discriminate). reflexivity.
Qed.

(** X10: what the [catch] block of [POST /convert] answers.  It logs
    the thrown value and calls nobody; the answer is 500 with the
    message about the layout exactly when the code of the error is 400
    and ["LAYOUT_NOT_FOUND"] occurs in its message, 401 with the message
    about expired credentials exactly when the code is 401, and 500 with
    the message of the error in all other cases. *)
Theorem catch_block_classifies (error : Error) (w : World) :
  let layout :=
    code error = Some 400%Z /\
    exists a b, message error = a ++ #"LAYOUT_NOT_FOUND" ++ b in
  exists r,
    convertFailed error w = (Ok r, consoleError error w) /\
    (r = Send 500 msgLayout <-> layout) /\
    (r = Send 401 msgExpired <-> code error = Some 401%Z) /\
    (r = Send 500 (msgUnexpected (errorDetail error)) <->
     ~ layout /\ code error <> Some 401%Z).
Proof.
  intro layout. subst layout. unfold convertFailed.
  pose proof (code_is_400 (code error)) as H400.
  pose proof (code_is_401 (code error)) as H401.
  pose proof (includes_spec (message error) #"LAYOUT_NOT_FOUND") as Hsub.
  destruct (match code error with Some 400%Z => true | _ => false end);
    destruct (includes (message error) #"LAYOUT_NOT_FOUND");
    destruct (match code error with Some 401%Z => true | _ => false end);
    cbn [andb]; eexists; (split; [reflexivity|]);
    repeat split; intros; try discriminate; try tauto;
    try (intuition congruence).
Qed.

Lemma catchResponse_not_rejected error e :
  catchResponse error <> Rejected e.
Proof.
  unfold catchResponse.
  destruct (_ && _); [discriminate|].
  now destruct (match code error with Some 401%Z => true | _ => false end).
Qed.

Lemma catchResponse_not_success error url :
  catchResponse error <> RenderSuccess url.
Proof.
  unfold catchResponse.
  destruct (_ && _); [discriminate|].
  now destruct (match code error with Some 401%Z => true | _ => false end).
Qed.

Lemma catchResponse_not_login error :
  catchResponse error <> Send 401 msgLoginFirst.
Proof.
  unfold catchResponse.
  destruct (_ && _); [discriminate|].
  destruct (match code error with Some 401%Z => true | _ => false end);
    discriminate.
Qed.

(** X11: the whole of a conversion that goes well.  With an access
    token, at least one fragment, and both calls answered, the route
    sends out [presentations.create] and then one [batchUpdate] for the
    presentation that was created, with the batch of all fragments (seven
    requests for each), and renders the success view with the URL of that
    presentation. *)
Theorem convert_submits_one_batch
    (parse : JS.str -> list Token) (now : nat -> Z)
    (presentationsCreate : list Call -> JS.str -> Error + JS.str)
    (batchUpdate :
       list Call -> JS.str -> list Request -> Error + Datatypes.unit)
    (markdownText : JS.str) (w : World) (presentationId : JS.str) :
  let fragments := slidesContent markdownText in
  let batch := batchFrom parse now fragments 0 (clockReads w) in
  let create := PresentationsCreate presentationTitle in
  present (access_token (credentials w)) = true ->
  fragments <> [] ->
  presentationsCreate (trace w) presentationTitle = inr presentationId ->
  batchUpdate (trace w ++ [create]) presentationId batch = inr tt ->
  let r := convert parse now presentationsCreate batchUpdate
                   (Form (Some markdownText)) w in
  fst r = RenderSuccess (presentationUrlOf presentationId) /\
  trace (snd r) = trace w ++ [create; BatchUpdate presentationId batch] /\
  List.length batch = 7 * List.length fragments /\
  forOf (buildSlide parse now) fragments ([], 0%N) (record create w) =
    (Ok (batch, N.of_nat (List.length fragments)),
     advance (3 * List.length fragments) (record create w)).
Proof.
  intros fragments batch create Hauth Hne Hcreate Hbatch r.
  subst r. rewrite convert_run by assumption. cbv zeta.
  fold fragments. fold batch. fold create. rewrite Hcreate.
  destruct fragments as [|f fs] eqn:Ef; [congruence|].
  cbn [trace record]. rewrite Hbatch. cbn [fst snd trace record advance].
  split; [reflexivity|]. split; [now rewrite <- app_assoc|].
  split; [apply batchFrom_length|].
  rewrite forOf_buildSlide_advance. reflexivity.
Qed.

Lemma convert_submits_one_batch_witness :
  let w := {| credentials := {| access_token := Some #"token";
                                refresh_token := None |};
              clockReads := 0; trace := []; console := [] |} in
  let r := convert (fun _ => headingsAB) (fun _ => 5%Z)
                   (fun _ _ => inr #"p1") (fun _ _ _ => inr tt)
                   (Form (Some #"# A --- # B")) w in
  fst r = RenderSuccess (presentationUrlOf #"p1") /\
  List.length (batchFrom (fun _ => headingsAB) (fun _ => 5%Z)
                 (slidesContent #"# A --- # B") 0 0) = 14.
Proof.
  intros w r.
  destruct (convert_submits_one_batch
              (fun _ => headingsAB) (fun _ => 5%Z)
              (fun _ _ => inr #"p1") (fun _ _ _ => inr tt)
              #"# A --- # B" w #"p1") as (Hr & _ & Hlen & _);
    try reflexivity; try discriminate.
  split; [exact Hr|exact Hlen].
Defined.

Lemma convert_trace
    (parse : JS.str -> list Token) (now : nat -> Z)
    (presentationsCreate : list Call -> JS.str -> Error + JS.str)
    (batchUpdate :
       list Call -> JS.str -> list Request -> Error + Datatypes.unit)
    (markdownText : JS.str) (w : World) :
  present (access_token (credentials w)) = true ->
  let r := convert parse now presentationsCreate batchUpdate
                   (Form (Some markdownText)) w in
  (forall e, fst r <> Rejected e) /\
  fst r <> Send 401 msgLoginFirst /\
  credentials (snd r) = credentials w /\
  (trace (snd r) = trace w ++ [PresentationsCreate presentationTitle] \/
   exists presentationId batch,
     trace (snd r) =
     trace w ++ [PresentationsCreate presentationTitle;
                 BatchUpdate presentationId batch]).
Proof.
  intros Hauth r. subst r. rewrite convert_run by assumption. cbv zeta.
  destruct (presentationsCreate (trace w) presentationTitle)
    as [error|presentationId].
  - split; [intro; apply catchResponse_not_rejected|].
    split; [apply catchResponse_not_login|]. now split; [|left].
  - destruct (slidesContent markdownText) as [|f fragments].
    + split; [discriminate|]. split; [discriminate|]. now split; [|left].
    + destruct (batchUpdate _ presentationId _) as [error|u];
        (split; [try discriminate; intro; apply catchResponse_not_rejected|]);
        (split; [try discriminate; apply catchResponse_not_login|]);
        (split; [reflexivity|]); right; eexists _, _;
        cbn [snd trace record advance consoleError];
        now rewrite <- app_assoc.
Qed.

(** X12: with an access token and a text, what [POST /convert] sends
    out is [presentations.create], first and once, and after it at most
    one [batchUpdate]: the [batchUpdate] is sent exactly when
    [presentations.create] answered and the text has at least one
    fragment, and then it is for the presentation that was created and
    carries the batch of all fragments. *)
Theorem convert_calls_in_order
    (parse : JS.str -> list Token) (now : nat -> Z)
    (presentationsCreate : list Call -> JS.str -> Error + JS.str)
    (batchUpdate :
       list Call -> JS.str -> list Request -> Error + Datatypes.unit)
    (markdownText : JS.str) (w : World) :
  present (access_token (credentials w)) = true ->
  let fragments := slidesContent markdownText in
  let batch := batchFrom parse now fragments 0 (clockReads w) in
  let r := convert parse now presentationsCreate batchUpdate
                   (Form (Some markdownText)) w in
  exists more,
    trace (snd r) =
      trace w ++ PresentationsCreate presentationTitle :: more /\
    more = match presentationsCreate (trace w) presentationTitle,
                 fragments with
           | inr presentationId, _ :: _ =>
               [BatchUpdate presentationId batch]
           | _, _ => []
           end.
Proof.
  intros Hauth fragments batch r. subst r.
  rewrite convert_run by assumption. cbv zeta. fold fragments. fold batch.
  destruct (presentationsCreate (trace w) presentationTitle)
    as [error|presentationId].
  - eexists. split; reflexivity.
  - destruct fragments as [|f fs] eqn:Ef.
    + eexists. split; reflexivity.
    + destruct (batchUpdate _ presentationId batch) as [error|u];
        eexists; (split; [|reflexivity]);
        cbn [snd trace record advance consoleError];
        now rewrite <- app_assoc.
Qed.

Lemma convert_calls_in_order_witness :
  let w := {| credentials := {| access_token := Some #"token";
                                refresh_token := None |};
              clockReads := 0; trace := []; console := [] |} in
  let r := convert (fun _ => headingsAB) (fun _ => 5%Z)
                   (fun _ _ => inr #"p1")
                   (fun _ _ _ => inl {| name := #"Error"; code := Some 500%Z;
                                        message := #"backend" |})
                   (Form (Some #"# A")) w in
  trace (snd r) =
  [ PresentationsCreate presentationTitle;
    BatchUpdate #"p1"
      (batchFrom (fun _ => headingsAB) (fun _ => 5%Z) [ #"# A" ] 0 0) ].
Proof.
  intros w r.
  destruct (convert_calls_in_order
              (fun _ => headingsAB) (fun _ => 5%Z)
              (fun _ _ => inr #"p1")
              (fun _ _ _ => inl {| name := #"Error"; code := Some 500%Z;
                                   message := #"backend" |})
              #"# A" w) as (more & Ht & Hm).
  - reflexivity.
  - rewrite Hm in Ht. exact Ht.
Defined.

(** X13: when [presentations.create] throws, the route answers what its
    [catch] block answers for the thrown value; nothing was built (the
    clock was not read) and [batchUpdate] is not called. *)
Theorem convert_when_create_throws
    (parse : JS.str -> list Token) (now : nat -> Z)
    (presentationsCreate : list Call -> JS.str -> Error + JS.str)
    (batchUpdate :
       list Call -> JS.str -> list Request -> Error + Datatypes.unit)
    (markdownText : JS.str) (w : World) (error : Error) :
  present (access_token (credentials w)) = true ->
  presentationsCreate (trace w) presentationTitle = inl error ->
  let create := PresentationsCreate presentationTitle in
  let r := convert parse now presentationsCreate batchUpdate
                   (Form (Some markdownText)) w in
  convertFailed error (record create w) = (Ok (fst r), snd r) /\
  trace (snd r) = trace w ++ [create] /\
  clockReads (snd r) = clockReads w /\
  console (snd r) = console w ++ [error].
Proof.
  intros Hauth Hcreate create r. subst r.
  rewrite convert_run by assumption. cbv zeta. rewrite Hcreate.
  rewrite convertFailed_catchResponse. repeat split.
Qed.

Lemma convert_when_create_throws_witness :
  let w := {| credentials := {| access_token := Some #"token";
                                refresh_token := None |};
              clockReads := 0; trace := []; console := [] |} in
  let error := {| name := #"Error"; code := Some 401%Z;
                  message := #"Invalid Credentials" |} in
  let r := convert (fun _ => headingsAB) (fun _ => 5%Z)
                   (fun _ _ => inl error) (fun _ _ _ => inr tt)
                   (Form (Some #"# A")) w in
  fst r = Send 401 msgExpired /\
  trace (snd r) = [PresentationsCreate presentationTitle].
Proof.
  intros w error r.
  destruct (convert_when_create_throws
              (fun _ => headingsAB) (fun _ => 5%Z)
              (fun _ _ => inl error) (fun _ _ _ => inr tt)
              #"# A" w error) as (Hr & Ht & _);
    try reflexivity.
  split; [reflexivity|exact Ht].
Defined.

(** X14: when [batchUpdate] throws, the presentation has been created
    all the same: both calls are in the trace, and the route answers what
    the [catch] block answers, never the success view, so the caller does
    not learn the URL of the presentation that is left behind. *)
Theorem convert_when_batchUpdate_throws
    (parse : JS.str -> list Token) (now : nat -> Z)
    (presentationsCreate : list Call -> JS.str -> Error + JS.str)
    (batchUpdate :
       list Call -> JS.str -> list Request -> Error + Datatypes.unit)
    (markdownText : JS.str) (w : World) (presentationId : JS.str)
    (error : Error) :
  let fragments := slidesContent markdownText in
  let batch := batchFrom parse now fragments 0 (clockReads w) in
  let create := PresentationsCreate presentationTitle in
  present (access_token (credentials w)) = true ->
  fragments <> [] ->
  presentationsCreate (trace w) presentationTitle = inr presentationId ->
  batchUpdate (trace w ++ [create]) presentationId batch = inl error ->
  let r := convert parse now presentationsCreate batchUpdate
                   (Form (Some markdownText)) w in
  (exists w', convertFailed error w' = (Ok (fst r), snd r)) /\
  trace (snd r) = trace w ++ [create; BatchUpdate presentationId batch] /\
  (forall url, fst r <> RenderSuccess url) /\
  console (snd r) = console w ++ [error].
Proof.
  intros fragments batch create Hauth Hne Hcreate Hbatch r.
  subst r. rewrite convert_run by assumption. cbv zeta.
  fold fragments. fold batch. fold create. rewrite Hcreate.
  destruct fragments as [|f fs] eqn:Ef; [congruence|].
  cbn [trace record]. rewrite Hbatch.
  cbn [fst snd trace record advance consoleError console].
  split; [eexists; apply convertFailed_catchResponse|].
  split; [now rewrite <- app_assoc|].
  split; [intro; apply catchResponse_not_success|reflexivity].
Qed.

Lemma convert_when_batchUpdate_throws_witness :
  let w := {| credentials := {| access_token := Some #"token";
                                refresh_token := None |};
              clockReads := 0; trace := []; console := [] |} in
  let error := {| name := #"Error"; code := Some 400%Z;
                  message := #"LAYOUT_NOT_FOUND: TITLE_AND_BODY" |} in
  let r := convert (fun _ => headingsAB) (fun _ => 5%Z)
                   (fun _ _ => inr #"p1") (fun _ _ _ => inl error)
                   (Form (Some #"# A")) w in
  fst r <> RenderSuccess (presentationUrlOf #"p1") /\
  console (snd r) = [error].
Proof.
  intros w error r.
  destruct (convert_when_batchUpdate_throws
              (fun _ => headingsAB) (fun _ => 5%Z)
              (fun _ _ => inr #"p1") (fun _ _ _ => inl error)
              #"# A" w #"p1" error) as (_ & _ & H1 & H2);
    try reflexivity; try discriminate.
  split; [apply H1|exact H2].
Defined.

(** X15: with an access token but without a text [markdownText] in the
    form, [split] is called on [undefined] before the [try] block is
    entered: the handler rejects with a TypeError, writes no response and
    calls nobody. *)
Theorem convert_without_text
    (parse : JS.str -> list Token) (now : nat -> Z)
    (presentationsCreate : list Call -> JS.str -> Error + JS.str)
    (batchUpdate :
       list Call -> JS.str -> list Request -> Error + Datatypes.unit)
    (w : World) :
  present (access_token (credentials w)) = true ->
  let r := convert parse now presentationsCreate batchUpdate (Form None) w in
  fst r = Rejected splitOfUndefined /\ snd r = w /\
  name splitOfUndefined = #"TypeError".
Proof.
  intros Hauth r. subst r. unfold convert. rewrite Hauth. repeat split.
Qed.

Lemma convert_without_text_witness :
  let w := {| credentials := {| access_token := Some #"token";
                                refresh_token := None |};
              clockReads := 0; trace := []; console := [] |} in
  fst (convert (fun _ => []) (fun _ => 0%Z)
               (fun _ _ => inr #"p1") (fun _ _ _ => inr tt)
               (Form None) w) =
  Rejected splitOfUndefined.
Proof.
  intro w.
  apply (convert_without_text (fun _ => []) (fun _ => 0%Z)
           (fun _ _ => inr #"p1") (fun _ _ _ => inr tt) w).
  reflexivity.
Defined.



(** X17: [GET /] and the guard of [POST /convert] agree, and [GET /]
    changes nothing: the page says that the user is not authenticated
    exactly when a conversion whose body was parsed, with the text or
    without, would be turned away with the 401 of the guard. *)
Theorem index_agrees_with_guard
    (parse : JS.str -> list Token) (now : nat -> Z)
    (presentationsCreate : list Call -> JS.str -> Error + JS.str)
    (batchUpdate :
       list Call -> JS.str -> list Request -> Error + Datatypes.unit)
    (markdownText : option JS.str) (w : World) :
  snd (index w) = w /\
  (fst (index w) = RenderIndex false <->
   fst (convert parse now presentationsCreate batchUpdate
                (Form markdownText) w)
   = Send 401 msgLoginFirst).
Proof.
  split; [reflexivity|]. unfold index. cbn [fst].
  destruct (present (access_token (credentials w))) eqn:Hp.
  - split; [discriminate|]. intro H. exfalso.
    destruct markdownText as [md|].
    + now destruct (convert_trace parse now presentationsCreate batchUpdate
                      md w Hp) as (_ & Hno & _).
    + unfold convert in H. rewrite Hp in H. discriminate H.
  - split; [|reflexivity]. intros _. unfold convert. now rewrite Hp.
Qed.

(** ** The server as a whole *)

Section NoLogin.

Variable parse : JS.str -> list Token.
Variable now : nat -> Z.
Variable authUrl : JS.str.
Variable getToken : list Call -> option JS.str -> Error + Credentials.
Variable presentationsCreate : list Call -> JS.str -> Error + JS.str.
Variable batchUpdate :
  list Call -> JS.str -> list Request -> Error + Datatypes.unit.

Hypothesis exchange_fails : forall h c, exists e, getToken h c = inl e.

Lemma serve_logged_out req w :
  LoggedOut w ->
  LoggedOut (snd (serve parse now authUrl getToken presentationsCreate
                        batchUpdate req w)) /\
  forall body,
    req = PostConvert body ->
    fst (serve parse now authUrl getToken presentationsCreate
               batchUpdate req w) = guardAnswer body.
Proof.
  intros [Hc Ht]. destruct req as [|authCode| |body]; cbn [serve].
  - split; [now split|discriminate].
  - split; [|discriminate].
    unfold authGoogleCallback, callOut.
    destruct (exchange_fails (trace w) authCode) as [e ->].
    cbn [snd]. split; [exact Hc|].
    cbn [trace consoleError record]. apply Forall_app. now split; repeat constructor.
  - split; [now split|discriminate].
  - unfold convert. destruct body as [|markdownText].
    + split; [now split|]. now intros ? [= <-].
    + rewrite Hc. cbn [access_token noCredentials present negb].
      split; [now split|]. now intros ? [= <-].
Qed.

Lemma serveAll_logged_out reqs : forall w,
  LoggedOut w ->
  let r := serveAll parse now authUrl getToken presentationsCreate
                    batchUpdate reqs w in
  LoggedOut (snd r) /\
  List.length (fst r) = List.length reqs /\
  forall i body,
    nth_error reqs i = Some (PostConvert body) ->
    nth_error (fst r) i = Some (guardAnswer body).
Proof.
  induction reqs as [|req reqs IH]; intros w Hw; cbn [serveAll].
  - repeat split; [apply Hw..|]. intros [|i] md H; discriminate H.
  - destruct (serve_logged_out req w Hw) as [Hw' Hresp].
    destruct (serve parse now authUrl getToken presentationsCreate
                    batchUpdate req w) as [resp w'].
    cbn [fst snd] in *.
    destruct (IH w' Hw') as (Hfinal & Hlen & Hconv).
    destruct (serveAll parse now authUrl getToken presentationsCreate
                       batchUpdate reqs w') as [rs w''].
    cbn [fst snd] in *. split; [exact Hfinal|].
    split; [simpl; now rewrite Hlen|].
    intros [|i] md H; cbn [nth_error] in *.
    + injection H as ->. f_equal. now apply (Hresp md).
    + now apply (Hconv i md).
Qed.

End NoLogin.

(** X18: as long as no exchange of a code succeeds, whatever requests
    the routes answer one after the other from the start of the process,
    nothing is ever sent to the Slides API: the credentials stay empty,
    the calls sent out are token exchanges only, and every
    [POST /convert] is turned away, with the 401 of the guard when its
    body was parsed and by the TypeError of line 84 when it was not. *)
Theorem no_slides_call_before_login
    (parse : JS.str -> list Token) (now : nat -> Z) (authUrl : JS.str)
    (getToken : list Call -> option JS.str -> Error + Credentials)
    (presentationsCreate : list Call -> JS.str -> Error + JS.str)
    (batchUpdate :
       list Call -> JS.str -> list Request -> Error + Datatypes.unit)
    (reqs : list HttpRequest) :
  (forall h c, exists e, getToken h c = inl e) ->
  let r := serveAll parse now authUrl getToken presentationsCreate
                    batchUpdate reqs initialWorld in
  credentials (snd r) = noCredentials /\
  Forall (fun c => isSlidesCall c = false) (trace (snd r)) /\
  List.length (fst r) = List.length reqs /\
  forall i body,
    nth_error reqs i = Some (PostConvert body) ->
    nth_error (fst r) i =
    Some (match body with
          | NoBody => Rejected destructureOfUndefined
          | Form _ => Send 401 msgLoginFirst
          end).
Proof.
  intros Hfail r.
  destruct (serveAll_logged_out parse now authUrl getToken
              presentationsCreate batchUpdate Hfail reqs initialWorld)
    as ((Hc & Ht) & Hlen & Hconv).
  - split; [reflexivity|constructor].
  - auto.
Qed.

Lemma no_slides_call_before_login_witness :
  let error := {| name := #"Error"; code := Some 400%Z;
                  message := #"invalid_grant" |} in
  let r := serveAll (fun _ => []) (fun _ => 0%Z) #"https://accounts"
                    (fun _ _ => inl error)
                    (fun _ _ => inr #"p1") (fun _ _ _ => inr tt)
                    [ GetIndex; PostConvert (Form (Some #"# A"));
                      GetAuthGoogleCallback (Some #"bad");
                      PostConvert (Form None); PostConvert NoBody;
                      GetAuthGoogle ]
                    initialWorld in
  credentials (snd r) = noCredentials /\
  Forall (fun c => isSlidesCall c = false) (trace (snd r)).
Proof.
  intros error r.
  destruct (no_slides_call_before_login
              (fun _ => []) (fun _ => 0%Z) #"https://accounts"
              (fun _ _ => inl error)
              (fun _ _ => inr #"p1") (fun _ _ _ => inr tt)
              [ GetIndex; PostConvert (Form (Some #"# A"));
                GetAuthGoogleCallback (Some #"bad");
                PostConvert (Form None); PostConvert NoBody;
                GetAuthGoogle ])
    as (Hc & Ht & _).
  - intros h c. now exists error.
  - split; [exact Hc|exact Ht].
Defined.

(** X19: slides without a title of their own are told apart by the
    title they get: the fallback counts the slides from 1 by their place
    in the presentation, and two different places never give the same
    text. *)
Theorem fallback_titles_differ (slideCount slideCount' : N) :
  titleText [] slideCount = titleText [] slideCount' ->
  slideCount = slideCount'.
Proof.
  unfold titleText. cbn [JS.truthy]. intro H.
  apply app_inv_head, ofN_inj in H. lia.
Qed.

Lemma fallback_titles_differ_witness :
  titleText [] 0 = #"Slide 1" /\ (9 = 9)%N.
Proof.
  split; [reflexivity|].
  apply (fallback_titles_differ 9 9). reflexivity.
Defined.
